(** * simstock / total.py: the line-counting tree scanner

    A shallow embedding of [total.py] and of the parts of the Python
    runtime it calls ([str.endswith], [posixpath.join], the strict UTF-8
    codec, universal-newline [readlines], [os.walk], [print]), followed by
    the properties of the scan.

    Conventions of the model:
    - a Python [str] is the list of its code points ([pystr]);
    - a file's content is a list of bytes; opening it may instead raise an
      [OSError];
    - the file system below the working directory is a tree of directories
      whose entries keep the order in which [os.scandir] lists them.  An
      entry can also be a directory that [os.scandir] cannot list, or a
      symbolic link to a directory: [os.walk] passes both by;
    - paths are joined as on POSIX;
    - the script's effects are threaded through a state-and-exception
      monad; the state holds [total_lines] and the trace of what the run
      did (directory scans, opens, prints). *)

From Stdlib Require Import Strings.String Strings.Ascii Strings.Byte.
From Stdlib Require Import List NArith ZArith Lia Bool.
From Stdlib Require Import DecimalString Sorting.Permutation.
Import ListNotations.

Local Open Scope list_scope.

(* ================================================================= *)
(** ** Python strings *)

Module PyStr.

Definition pystr := list N.

(** A string literal of the source. *)
Definition lit (s : string) : pystr :=
  map N_of_ascii (list_ascii_of_string s).

Fixpoint eqb (a b : pystr) : bool :=
  match a, b with
  | [], [] => true
  | x :: a', y :: b' => N.eqb x y && eqb a' b'
  | _, _ => false
  end.

(** [s.endswith(suffix)] for one suffix. *)
Definition endswith1 (s suffix : pystr) : bool :=
  (length suffix <=? length s)%nat
  && eqb (skipn (length s - length suffix) s) suffix.

(** [s.endswith(suffixes)] for a tuple of suffixes. *)
Definition endswith (s : pystr) (suffixes : list pystr) : bool :=
  existsb (endswith1 s) suffixes.

Definition startswith1 (s pre : pystr) : bool :=
  eqb (firstn (length pre) s) pre.

(** [x in xs] on strings. *)
Definition mem (x : pystr) (xs : list pystr) : bool :=
  existsb (eqb x) xs.

(** [str(n)] for an [int]. *)
Definition str_of_int (n : Z) : pystr :=
  lit (NilZero.string_of_int (Z.to_int n)).

Definition nl : pystr := [10%N].

End PyStr.
Import PyStr.

(* ================================================================= *)
(** ** [posixpath.join] *)

Module PosixPath.

Definition sep : pystr := lit "/".

(** [join(a, b)]: an absolute [b] replaces [a]; otherwise [b] is appended,
    after a separator unless [a] is empty or already ends in one. *)
Definition join (a b : pystr) : pystr :=
  if startswith1 b sep then b
  else match a with
       | [] => b
       | _ => if endswith1 a sep then a ++ b else a ++ sep ++ b
       end.

End PosixPath.

(* ================================================================= *)
(** ** The strict UTF-8 codec *)

Module Utf8.

Definition between (lo hi b : N) : bool := (lo <=? b)%N && (b <=? hi)%N.

(** A continuation byte, 0x80..0xBF. *)
Definition cont (b : N) : bool := between 128 191 b.

Definition low6 (b : N) : N := N.land b 63.

(** [bytes.decode('utf-8', 'strict')]: [None] stands for the
    [UnicodeDecodeError].  Overlong forms, surrogates and code points above
    U+10FFFF are rejected, as the codec does. *)
Fixpoint decode (bs : list N) : option pystr :=
  match bs with
  | [] => Some []
  | b0 :: r0 =>
      if (b0 <? 128)%N then option_map (cons b0) (decode r0)
      else if between 194 223 b0 then
        match r0 with
        | b1 :: r1 =>
            if cont b1
            then option_map
                   (cons (N.lor (N.shiftl (N.land b0 31) 6) (low6 b1)))
                   (decode r1)
            else None
        | _ => None
        end
      else if between 224 239 b0 then
        match r0 with
        | b1 :: b2 :: r2 =>
            if between (if (b0 =? 224)%N then 160 else 128)
                       (if (b0 =? 237)%N then 159 else 191) b1
               && cont b2
            then option_map
                   (cons (N.lor (N.shiftl (N.land b0 15) 12)
                            (N.lor (N.shiftl (low6 b1) 6) (low6 b2))))
                   (decode r2)
            else None
        | _ => None
        end
      else if between 240 244 b0 then
        match r0 with
        | b1 :: b2 :: b3 :: r3 =>
            if between (if (b0 =? 240)%N then 144 else 128)
                       (if (b0 =? 244)%N then 143 else 191) b1
               && cont b2 && cont b3
            then option_map
                   (cons (N.lor (N.shiftl (N.land b0 7) 18)
                            (N.lor (N.shiftl (low6 b1) 12)
                               (N.lor (N.shiftl (low6 b2) 6) (low6 b3)))))
                   (decode r3)
            else None
        | _ => None
        end
      else None
  end.

Definition decode_bytes (content : list byte) : option pystr :=
  decode (map Byte.to_N content).

End Utf8.

(* ================================================================= *)
(** ** Text-mode reading with universal newlines *)

Module TextIO.

Definition CR : N := 13.
Definition LF : N := 10.

(** With [newline=None], the line ends CR LF, CR and LF all read as LF. *)
Fixpoint translate_newlines (s : pystr) : pystr :=
  match s with
  | [] => []
  | c :: r =>
      if (c =? CR)%N then
        match r with
        | d :: r' =>
            if (d =? LF)%N then LF :: translate_newlines r'
            else LF :: translate_newlines r
        | [] => [LF]
        end
      else c :: translate_newlines r
  end.

(** Cut after every LF; each line keeps its LF, and only the last line can
    lack one. *)
Fixpoint split_lines (s : pystr) : list pystr :=
  match s with
  | [] => []
  | c :: r =>
      if (c =? LF)%N then [c] :: split_lines r
      else match split_lines r with
           | [] => [[c]]
           | l :: ls => (c :: l) :: ls
           end
  end.

(** [f.readlines()] on the decoded text of a file. *)
Definition readlines (text : pystr) : list pystr :=
  split_lines (translate_newlines text).

End TextIO.

(* ================================================================= *)
(** ** The file system under the working directory *)

Module FS.

Inductive oserror :=
| PermissionError
| FileNotFoundError
| IsADirectoryError
| OtherOSError.

(** What [open(path, 'r')] followed by a read of the whole file gives: the
    bytes of the file, or an [OSError]. *)
Inductive file :=
| Readable (content : list byte)
| Unreadable (e : oserror).

(** A directory lists its entries by name, in the order of [os.scandir].
    [Locked] is a directory that [os.scandir] cannot list (no permission,
    a path that is too long): its entries are there, but a walk never gets
    to see them.  [DirLink] is a symbolic link to a directory, with the
    entries of the directory it points to: [os.scandir] lists it as it
    lists that directory, and [os.path.islink] tells it apart. *)
#[local] Unset Elimination Schemes.
Inductive node :=
| File (f : file)
| Dir (entries : list (pystr * node))
| Locked (entries : list (pystr * node))
| DirLink (entries : list (pystr * node)).
#[local] Set Elimination Schemes.

Definition entries := list (pystr * node).

(** [entry.is_dir()], which follows symbolic links. *)
Definition is_dir (n : node) : bool :=
  match n with File _ => false | _ => true end.

(** [os.path.islink] on a name that [is_dir] holds of. *)
Definition is_link (n : node) : bool :=
  match n with DirLink _ => true | _ => false end.

(** The names [os.walk] sorts into [dirs] and into [nondirs]. *)
Definition dir_names (es : entries) : list pystr :=
  map fst (filter (fun e => is_dir (snd e)) es).

Definition nondir_names (es : entries) : list pystr :=
  map fst (filter (fun e => negb (is_dir (snd e))) es).

(** The entry a name resolves to in a directory. *)
Fixpoint lookup (es : entries) (name : pystr) : option node :=
  match es with
  | [] => None
  | (nm, n) :: es' => if PyStr.eqb nm name then Some n else lookup es' name
  end.

(** Opening the entry [name] of a directory for reading. *)
Definition fs_open (es : entries) (name : pystr) : file :=
  match lookup es name with
  | Some (File f) => f
  | Some _ => Unreadable IsADirectoryError
  | None => Unreadable FileNotFoundError
  end.

Fixpoint distinct (names : list pystr) : bool :=
  match names with
  | [] => true
  | nm :: r => negb (mem nm r) && distinct r
  end.

(** Names are unique within a directory, at every level that can be
    listed. *)
Fixpoint wf (n : node) : bool :=
  match n with
  | Dir es | DirLink es =>
      distinct (map fst es) && forallb (fun e => wf (snd e)) es
  | _ => true
  end.

(** Every file in the directories that can be listed and are reached
    from the top through no symbolic link, in the order of a top-down
    walk: the directories above it, its name and what opening it gives.
    The top itself is listed also when it is a link. *)
Fixpoint all_files (loc : list pystr) (n : node)
  : list (list pystr * pystr * file) :=
  match n with
  | Dir es | DirLink es =>
      flat_map (fun e =>
                  match snd e with
                  | File f => [(loc, fst e, f)]
                  | _ => []
                  end) es
      ++ flat_map (fun e =>
                     match snd e with
                     | Dir _ => all_files (loc ++ [fst e]) (snd e)
                     | _ => []
                     end) es
  | _ => []
  end.

(** Every file of the tree, wherever it lies: also below a directory that
    cannot be listed and below a symbolic link to a directory. *)
Fixpoint tree_files (loc : list pystr) (n : node)
  : list (list pystr * pystr * file) :=
  match n with
  | File _ => []
  | Dir es | Locked es | DirLink es =>
      flat_map (fun e =>
                  match snd e with
                  | File f => [(loc, fst e, f)]
                  | _ => tree_files (loc ++ [fst e]) (snd e)
                  end) es
  end.

(** Every directory of the tree can be listed and none is reached through
    a symbolic link. *)
Fixpoint listed (n : node) : bool :=
  match n with
  | File _ => true
  | Dir es => forallb (fun e => listed (snd e)) es
  | _ => false
  end.

End FS.
Import FS.

(* ================================================================= *)
(** ** State, exceptions and the trace of a run *)

Module Run.

(** The [print] call of the source a piece of output comes from. *)
Inductive site := SHeader | SLine | SSeparator | SError | SSummary.

(** A position in the tree: the names from the root down. *)
Definition location := list pystr.

Inductive event :=
| EScandir (loc : location) (path : pystr)
| EOpen (dir : location) (name : pystr) (path : pystr)
| EPrint (s : site) (text : pystr).

Record state := mkState { total_lines : Z; trace : list event }.

Inductive exn :=
| OSError (e : oserror)
| UnicodeDecodeError (object : list byte).

Inductive result (A : Type) :=
| Ok (a : A) (st : state)
| Raise (e : exn) (st : state).
Arguments Ok {A} a st.
Arguments Raise {A} e st.

Definition M (A : Type) := state -> result A.

Definition ret {A} (a : A) : M A := fun st => Ok a st.

Definition bind {A B} (m : M A) (k : A -> M B) : M B :=
  fun st => match m st with
            | Ok a st' => k a st'
            | Raise e st' => Raise e st'
            end.

Definition raise {A} (e : exn) : M A := fun st => Raise e st.

(** [try: m except UnicodeDecodeError as e: h e]; any other exception
    passes through. *)
Definition except_decode (m : M unit) (h : list byte -> M unit) : M unit :=
  fun st => match m st with
            | Raise (UnicodeDecodeError o) st' => h o st'
            | r => r
            end.

Definition emit (e : event) : M unit :=
  fun st => Ok tt (mkState (total_lines st) (trace st ++ [e])).

Definition add_total (k : Z) : M unit :=
  fun st => Ok tt (mkState (total_lines st + k) (trace st)).

Definition get_total : M Z := fun st => Ok (total_lines st) st.

(** [print(text, end=e)] at a given call site. *)
Definition print (s : site) (text e : pystr) : M unit :=
  emit (EPrint s (text ++ e)).

Fixpoint for_each {A} (xs : list A) (f : A -> M unit) : M unit :=
  match xs with
  | [] => ret tt
  | x :: r => bind (f x) (fun _ => for_each r f)
  end.

Definition state_of {A} (r : result A) : state :=
  match r with Ok _ st => st | Raise _ st => st end.

Definition printed (e : event) : pystr :=
  match e with EPrint _ t => t | _ => [] end.

(** The text written to standard output. *)
Definition stdout (tr : list event) : pystr := concat (map printed tr).

End Run.
Import Run.

Declare Scope run_scope.
Delimit Scope run_scope with run.
Notation "x <- m ;; k" := (bind m (fun x => k))
  (at level 61, m at next level, right associativity) : run_scope.
Notation "m ;; k" := (bind m (fun _ => k))
  (at level 61, right associativity) : run_scope.
Local Open Scope run_scope.

Ltac run_unfold :=
  unfold print, emit, add_total, get_total, ret, raise, bind, except_decode
    in *; simpl in *.

(* ================================================================= *)
(** ** [os.walk(top, topdown=True)] *)

Module Os.

(** The generator hands [(top, dirs, nondirs)] to the loop body and, when
    the body is done, descends into the names the body left in [dirs]: the
    body's result here is that list.  A name that is a symbolic link is
    passed by without a scan ([followlinks] is [False]); for every other
    name [scandir] is called, and when it fails (the name is no directory
    that can be listed) the walk goes on with the next name, since
    [onerror] is [None].  [walk_node] is what follows a call of [scandir]
    on [top]: [scandir] follows a link, and [islink] is asked of the names
    in [dirs] only, never of [top].  [loc] and [es] locate the directory
    in the tree; the script sees only [top], [dirs] and [nondirs]. *)
Definition loop_body :=
  pystr -> location -> entries -> list pystr -> list pystr -> M (list pystr).

Fixpoint walk_node (body : loop_body) (top : pystr) (loc : location)
    (n : node) : M unit :=
  match n with
  | Dir es | DirLink es =>
      dirs <- body top loc es (dir_names es) (nondir_names es) ;;
      for_each dirs (fun dirname =>
        let new_path := PosixPath.join top dirname in
        (fix resolve (l : entries) : M unit :=
           match l with
           | [] => emit (EScandir (loc ++ [dirname]) new_path)
           | (nm, child) :: l' =>
               if PyStr.eqb nm dirname
               then
                 if is_link child then ret tt
                 else
                   emit (EScandir (loc ++ [dirname]) new_path) ;;
                   walk_node body new_path (loc ++ [dirname]) child
               else resolve l'
           end) es)
  | _ => ret tt
  end.

Definition walk (body : loop_body) (top : pystr) (fs : node) : M unit :=
  emit (EScandir [] top) ;;
  walk_node body top [] fs.

End Os.

(* ================================================================= *)
(** ** The script *)

Definition directory_path : pystr := lit "./".
Definition file_extensions : list pystr :=
  [lit ".js"; lit ".html"; lit ".css"; lit ".py"].
Definition exclude_folders : list pystr := [lit "node_modules"].

Definition hyphen : N := 45.

(** [with open(file_path, 'r', encoding="utf-8") as f: f.readlines()] *)
Definition open_readlines (dir : location) (es : entries)
    (file file_path : pystr) : M (list pystr) :=
  emit (EOpen dir file file_path) ;;
  match fs_open es file with
  | Unreadable e => raise (OSError e)
  | Readable content =>
      match Utf8.decode_bytes content with
      | None => raise (UnicodeDecodeError content)
      | Some text => ret (TextIO.readlines text)
      end
  end.

(* ----------------------------------------------------------------- *)
(** *** Sample trees *)

Module Sample.

Definition bytes (s : string) : list byte := list_byte_of_string s.

Definition a_py : list byte := bytes "import os
print(os.getcwd())
".

Definition b_js : list byte := bytes "let a = 1;
let b = 2;
let c = 3;".

Definition b_js_text : pystr := lit "let a = 1;
let b = 2;
let c = 3;".

Definition bad_css : list byte := [xff; x0a].

Definition src_entries : entries :=
  [ (lit "empty.html", File (Readable []));
    (lit "node_modules", Dir [ (lit "d.py", File (Readable (bytes "x
"))) ]) ].

(** The scenario of the specification, with an undecodable file, an empty
    file and a nested excluded directory added.  The file below
    [node_modules/sub/deep] cannot be opened. *)
Definition root_entries : entries :=
  [ (lit "a.py", File (Readable a_py));
    (lit "node_modules",
     Dir [ (lit "c.js", File (Readable (bytes "one
two
three
")));
           (lit "sub",
            Dir [ (lit "deep",
                   Dir [ (lit "app.js",
                          File (Unreadable PermissionError)) ]) ]) ]);
    (lit "b.js", File (Readable b_js));
    (lit "bad.css", File (Readable bad_css));
    (lit "src", Dir src_entries);
    (lit "readme.md", File (Readable (bytes "1
2
3
4
5
"))) ].

Definition tree : node := Dir root_entries.

(** A tree that differs from [tree] only below [node_modules] and in a
    file of another extension. *)
Definition other_tree : node :=
  Dir [ (lit "a.py", File (Readable a_py));
        (lit "node_modules", Dir [ (lit "z.py", File (Readable b_js)) ]);
        (lit "b.js", File (Readable b_js));
        (lit "bad.css", File (Readable bad_css));
        (lit "src", Dir [ (lit "empty.html", File (Readable [])) ]);
        (lit "readme.md", File (Unreadable PermissionError)) ].

(** A tree with a file that vanished between the listing and the open. *)
Definition broken_tree : node :=
  Dir [ (lit "a.py", File (Readable a_py));
        (lit "gone.js", File (Unreadable FileNotFoundError));
        (lit "b.js", File (Readable b_js)) ].

Definition describe (content : list byte) : pystr :=
  lit "'utf-8' codec can't decode byte 0xff in position 0: invalid start byte".

(** [tree] with its entries listed the other way round. *)
Definition reversed_tree : node := Dir (rev root_entries).

(** A tree with a selected file in a directory that cannot be listed. *)
Definition locked_tree : node :=
  Dir [ (lit "a.py", File (Readable a_py));
        (lit "locked",
         Locked [ (lit "x.py", File (Readable (bytes "x = 1
"))) ]) ].

(** A tree with a directory that cannot be listed, holding a file that
    cannot be opened, and a symbolic link to a directory. *)
Definition skipping_tree : node :=
  Dir [ (lit "a.py", File (Readable a_py));
        (lit "locked",
         Locked [ (lit "x.py", File (Unreadable PermissionError)) ]);
        (lit "link", DirLink [ (lit "y.js", File (Readable b_js)) ]);
        (lit "src", Dir src_entries) ].

(** A text of three lines, the last without line end. *)
Definition three_lines : pystr := lit "one
two
three".

End Sample.

Section Total.

(** [str(e)] for the [UnicodeDecodeError] raised on the bytes of a file: the
    codec's description of the failure. *)
Variable describe : list byte -> pystr.

(** Lines 12-23: what the loop does with one name of [files]. *)
Definition process_file (root : pystr) (dir : location) (es : entries)
    (file : pystr) : M unit :=
  if endswith file file_extensions then
    let file_path := PosixPath.join root file in
    except_decode
      (file_lines <- open_readlines dir es file file_path ;;
       add_total (Z.of_nat (length file_lines)) ;;
       print SHeader (lit "Contents of " ++ file_path ++ lit ":") nl ;;
       for_each file_lines (fun line => print SLine line []) ;;
       print SSeparator (nl ++ repeat hyphen 50 ++ nl) nl)
      (fun e =>
         print SError (lit "Error reading " ++ file_path ++ lit ": "
                         ++ describe e) nl)
  else ret tt.

(** Lines 10-23: the body of the [for root, dirs, files in os.walk(...)]
    loop; the result is [dirs] after the slice assignment. *)
Definition body : Os.loop_body :=
  fun root dir es dirs files =>
    let dirs' := filter (fun d => negb (mem d exclude_folders)) dirs in
    for_each files (process_file root dir es) ;;
    ret dirs'.

Definition initial : state := mkState 0 [].

(** Line 25. *)
Definition summary : M unit :=
  n <- get_total ;;
  print SSummary (lit "Total lines: " ++ str_of_int n) nl.

(** The texts of the three kinds of output a file can give. *)
Definition header_text (file_path : pystr) : pystr :=
  lit "Contents of " ++ file_path ++ lit ":" ++ nl.

Definition separator_text : pystr :=
  nl ++ repeat hyphen 50 ++ nl ++ nl.

Definition error_text (file_path : pystr) (content : list byte) : pystr :=
  lit "Error reading " ++ file_path ++ lit ": " ++ describe content ++ nl.

Definition summary_text (n : Z) : pystr :=
  lit "Total lines: " ++ str_of_int n ++ nl.

(** The whole script, lines 7-25. *)
Definition main (fs : node) : result unit :=
  (Os.walk body directory_path fs ;; summary) initial.

(* ----------------------------------------------------------------- *)
(** *** The order of work of the traversal *)

(** The walk as a flat list of steps: the scans of the directories and,
    for every name of every [files] list, the loop's work on it. *)
Inductive action :=
| AScan (loc : location) (path : pystr)
| AFile (root : pystr) (dir : location) (es : entries) (file : pystr).

Fixpoint schedule (top : pystr) (loc : location) (n : node) : list action :=
  match n with
  | Dir es | DirLink es =>
      map (AFile top loc es) (nondir_names es)
      ++ flat_map
           (fun dirname =>
              let new_path := PosixPath.join top dirname in
              (fix resolve (l : entries) : list action :=
                 match l with
                 | [] => [AScan (loc ++ [dirname]) new_path]
                 | (nm, child) :: l' =>
                     if PyStr.eqb nm dirname
                     then
                       if is_link child then []
                       else
                         AScan (loc ++ [dirname]) new_path
                         :: schedule new_path (loc ++ [dirname]) child
                     else resolve l'
                 end) es)
           (filter (fun d => negb (mem d exclude_folders)) (dir_names es))
  | _ => []
  end.

Definition perform (a : action) : M unit :=
  match a with
  | AScan loc path => emit (EScandir loc path)
  | AFile root dir es file => process_file root dir es file
  end.

(** The steps of a whole run, before the summary. *)
Definition plan (fs : node) : list action :=
  AScan [] directory_path :: schedule directory_path [] fs.

(** The events a step can add to the trace. *)
Definition event_of (a : action) (e : event) : Prop :=
  match a, e with
  | AScan loc path, EScandir loc' path' => loc' = loc /\ path' = path
  | AFile root dir es file, EOpen dir' file' path' =>
      dir' = dir /\ file' = file /\ path' = PosixPath.join root file
  | AFile _ _ _ _, EPrint s _ => s <> SSummary
  | _, _ => False
  end.

(** The file a step of the schedule works on. *)
Definition visit_of (a : action) : list (location * pystr * file) :=
  match a with
  | AScan _ _ => []
  | AFile _ dir es file => [(dir, file, fs_open es file)]
  end.

(* ----------------------------------------------------------------- *)
(** *** The total as the specification words it *)

(** A location lies under an excluded directory. *)
Definition under_excluded (loc : location) : bool :=
  existsb (fun d => mem d exclude_folders) loc.

(** The lines of a file that opens and decodes. *)
Definition decoded_lines (f : file) : option (list pystr) :=
  match f with
  | Readable content =>
      option_map TextIO.readlines (Utf8.decode_bytes content)
  | Unreadable _ => None
  end.

Definition decodes (f : file) : bool :=
  match decoded_lines f with Some _ => true | None => false end.

Definition line_count (f : file) : Z :=
  match decoded_lines f with
  | Some ls => Z.of_nat (length ls)
  | None => 0
  end.

Definition eligible (x : location * pystr * file) : bool :=
  endswith (snd (fst x)) file_extensions.

Definition outside (x : location * pystr * file) : bool :=
  negb (under_excluded (fst (fst x))).

Definition unreadable (f : file) : bool :=
  match f with Unreadable _ => true | Readable _ => false end.

(** Name ends with a recognised extension, and no directory above the file
    is excluded. *)
Definition selected (x : location * pystr * file) : bool :=
  eligible x && outside x.

Definition selected_files (fs : node) : list (location * pystr * file) :=
  filter selected (all_files [] fs).

Definition sum_lines (xs : list (location * pystr * file)) : Z :=
  fold_right Z.add 0%Z (map (fun x => line_count (snd x)) xs).

(** Sum of the line counts of the selected files, leaving out those that
    fail to decode. *)
Definition expected_total (fs : node) : Z :=
  sum_lines (filter (fun x => decodes (snd x)) (selected_files fs)).

(** The same sum over every file of the tree, wherever it lies. *)
Definition claimed_total (fs : node) : Z :=
  sum_lines (filter (fun x => decodes (snd x))
               (filter selected (tree_files [] fs))).

Definition counted (acts : list action) : list (location * pystr * file) :=
  filter (fun x => decodes (snd x))
    (filter eligible (flat_map visit_of acts)).

(** The lines one step adds. *)
Definition gain (a : action) : Z :=
  match a with
  | AScan _ _ => 0
  | AFile _ _ es file =>
      if endswith file file_extensions then line_count (fs_open es file)
      else 0
  end.

(* ----------------------------------------------------------------- *)
(** *** Trees with the unvisited parts removed *)

(** The tree without its excluded directories. *)
Fixpoint prune (n : node) : node :=
  match n with
  | Dir es =>
      Dir (flat_map
             (fun e =>
                if is_dir (snd e) && mem (fst e) exclude_folders then []
                else [(fst e, prune (snd e))]) es)
  | _ => n
  end.

Definition prune_entries (es : entries) : entries :=
  flat_map
    (fun e =>
       if is_dir (snd e) && mem (fst e) exclude_folders then []
       else [(fst e, prune (snd e))]) es.

(** The tree with the content of every file of another extension
    emptied. *)
Fixpoint blank (n : node) : node :=
  match n with
  | Dir es =>
      Dir (map (fun e =>
                  (fst e,
                   match snd e with
                   | File f =>
                       if endswith (fst e) file_extensions then File f
                       else File (Readable [])
                   | _ => blank (snd e)
                   end)) es)
  | _ => n
  end.

Definition blank_entry (name : pystr) (n : node) : node :=
  match n with
  | File f =>
      if endswith name file_extensions then File f else File (Readable [])
  | _ => blank n
  end.

Definition blank_entries (es : entries) : entries :=
  map (fun e => (fst e, blank_entry (fst e) (snd e))) es.

(** An event that touches nothing at or below an excluded directory. *)
Definition clear_of_excluded (e : event) : Prop :=
  match e with
  | EScandir loc _ => ~ In (lit "node_modules") loc
  | EOpen dir _ _ => ~ In (lit "node_modules") dir
  | EPrint _ _ => True
  end.

Definition action_outside (a : action) : Prop :=
  match a with
  | AScan loc _ => under_excluded loc = false
  | AFile _ dir _ _ => under_excluded dir = false
  end.

(** What a run can see of a tree. *)
Definition observed (fs : node) : node := blank (prune fs).

(* ----------------------------------------------------------------- *)
(** *** What each step of a run does *)

(** The [OSError] a step ends with, if any. *)
Definition error_of (a : action) : option oserror :=
  match a with
  | AScan _ _ => None
  | AFile _ _ es file =>
      if endswith file file_extensions then
        match fs_open es file with
        | Unreadable e => Some e
        | Readable _ => None
        end
      else None
  end.

(** The events a step adds to the trace. *)
Definition events_of (a : action) : list event :=
  match a with
  | AScan loc path => [EScandir loc path]
  | AFile root dir es file =>
      if endswith file file_extensions then
        let file_path := PosixPath.join root file in
        EOpen dir file file_path
        :: match fs_open es file with
           | Unreadable _ => []
           | Readable content =>
               match Utf8.decode_bytes content with
               | None => [EPrint SError (error_text file_path content)]
               | Some text =>
                   EPrint SHeader (header_text file_path)
                   :: map (EPrint SLine) (TextIO.readlines text)
                   ++ [EPrint SSeparator separator_text]
               end
           end
      else []
  end.

(** The state a step leaves. *)
Definition after (a : action) (st : state) : state :=
  mkState (total_lines st + gain a) (trace st ++ events_of a).

(** The steps a run gets to: all of them up to the first that raises. *)
Fixpoint executed (acts : list action) : list action :=
  match acts with
  | [] => []
  | a :: r =>
      match error_of a with
      | Some _ => [a]
      | None => a :: executed r
      end
  end.

Fixpoint first_error (acts : list action) : option oserror :=
  match acts with
  | [] => None
  | a :: r =>
      match error_of a with
      | Some e => Some e
      | None => first_error r
      end
  end.

Definition sum_gain (acts : list action) : Z :=
  fold_right Z.add 0%Z (map gain acts).

(* ----------------------------------------------------------------- *)
(** *** What a run shows of a tree *)

(** The path [os.walk] gives for a directory: the names joined one after
    the other onto ['./']. *)
Definition path_of (loc : location) : pystr :=
  fold_left PosixPath.join loc directory_path.

(** [file_path] for a file of the tree. *)
Definition file_path_of (x : location * pystr * file) : pystr :=
  PosixPath.join (path_of (fst (fst x))) (snd (fst x)).

(** The text a run prints for a selected file. *)
Definition block_text (x : location * pystr * file) : pystr :=
  match snd x with
  | Readable content =>
      match Utf8.decode_bytes content with
      | Some text =>
          header_text (file_path_of x)
          ++ TextIO.translate_newlines text ++ separator_text
      | None => error_text (file_path_of x) content
      end
  | Unreadable _ => []
  end.

(** The files met before the first one that cannot be opened. *)
Fixpoint before_failure (xs : list (location * pystr * file))
  : list (location * pystr * file) :=
  match xs with
  | [] => []
  | x :: r => if unreadable (snd x) then [] else x :: before_failure r
  end.

(** The same, with the file that cannot be opened. *)
Fixpoint through_failure (xs : list (location * pystr * file))
  : list (location * pystr * file) :=
  match xs with
  | [] => []
  | x :: r => if unreadable (snd x) then [x] else x :: through_failure r
  end.

(** The files a trace opens, the directories it scans and the number of
    file lines it prints. *)
Definition opens (tr : list event) : list (location * pystr) :=
  flat_map (fun e => match e with
                     | EOpen dir name _ => [(dir, name)]
                     | _ => []
                     end) tr.

Definition scans (tr : list event) : list location :=
  flat_map (fun e => match e with
                     | EScandir loc _ => [loc]
                     | _ => []
                     end) tr.

Definition lines_printed (tr : list event) : nat :=
  length (filter (fun e => match e with
                           | EPrint SLine _ => true
                           | _ => false
                           end) tr).

(** The directories a walk can come to below a directory, top-down:
    those listed in it that are no symbolic links, and what lies below the
    ones among them that can be listed in turn. *)
Fixpoint sub_dirs (loc : location) (n : node) : list location :=
  match n with
  | Dir es | DirLink es =>
      flat_map (fun e =>
                  match snd e with
                  | File _ | DirLink _ => []
                  | _ => (loc ++ [fst e]) :: sub_dirs (loc ++ [fst e]) (snd e)
                  end) es
  | _ => []
  end.

(** A name as a directory holds it: not empty and without a slash. *)
Definition plain (name : pystr) : bool :=
  negb (PyStr.eqb name []) && negb (existsb (N.eqb 47) name).

Fixpoint plain_tree (n : node) : bool :=
  match n with
  | Dir es | DirLink es =>
      forallb (fun e => plain (fst e) && plain_tree (snd e)) es
  | _ => true
  end.

(** ['./'], the directories each followed by a slash, the name. *)
Definition shown_path (dir : location) (name : pystr) : pystr :=
  lit "./" ++ concat (map (fun d => d ++ PosixPath.sep) dir) ++ name.

(** A text with its line feeds turned into CR LF, and into CR. *)
Definition to_crlf (s : pystr) : pystr :=
  flat_map (fun c => if (c =? TextIO.LF)%N then [TextIO.CR; TextIO.LF]
                     else [c]) s.

Definition to_cr (s : pystr) : pystr :=
  map (fun c => if (c =? TextIO.LF)%N then TextIO.CR else c) s.

(** The directory a step scans. *)
Definition scan_of (a : action) : list location :=
  match a with
  | AScan loc _ => [loc]
  | AFile _ _ _ _ => []
  end.

(** A step that carries the path the walk gives its directory. *)
Definition rooted (a : action) : Prop :=
  match a with
  | AScan loc path => path = path_of loc
  | AFile root dir _ _ => root = path_of dir
  end.

(** A step on plain names. *)
Definition plain_action (a : action) : Prop :=
  match a with
  | AScan _ _ => True
  | AFile _ dir _ file => forallb plain dir = true /\ plain file = true
  end.

(** A text whose last line has no line feed. *)
Definition unterminated (s : pystr) : bool :=
  negb (N.eqb (last s TextIO.LF) TextIO.LF).

(** The same tree with the entries of its directories listed in another
    order. *)
#[local] Unset Elimination Schemes.
Inductive reordered : node -> node -> Prop :=
| reordered_file (f : file) : reordered (File f) (File f)
| reordered_locked (es : entries) : reordered (Locked es) (Locked es)
| reordered_link (es : entries) : reordered (DirLink es) (DirLink es)
| reordered_dir (es es1 es2 : entries) :
    Forall2 (fun e e' => fst e = fst e' /\ reordered (snd e) (snd e'))
      es es1 ->
    Permutation es1 es2 ->
    reordered (Dir es) (Dir es2).
#[local] Set Elimination Schemes.

(* ================================================================= *)
(** ** The runtime model on small inputs *)

Example join_root : PosixPath.join (lit "./") (lit "a.py") = lit "./a.py".
Proof. reflexivity. Qed.

Example join_below :
  PosixPath.join (lit "./src") (lit "empty.html") = lit "./src/empty.html".
Proof. reflexivity. Qed.

Example join_absolute : PosixPath.join (lit "./src") (lit "/etc") = lit "/etc".
Proof. reflexivity. Qed.

Example str_of_int_zero : str_of_int 0 = lit "0".
Proof. reflexivity. Qed.

Example str_of_int_105 : str_of_int 105 = lit "105".
Proof. reflexivity. Qed.

(** The euro sign, three bytes. *)
Example decode_three_bytes :
  Utf8.decode_bytes [xe2; x82; xac; x61] = Some [8364%N; 97%N].
Proof. reflexivity. Qed.

(** U+1F600, four bytes. *)
Example decode_four_bytes :
  Utf8.decode_bytes [xf0; x9f; x98; x80] = Some [128512%N].
Proof. reflexivity. Qed.

(** An overlong form, a surrogate, a code point past U+10FFFF, a lone
    continuation byte and a truncated sequence are all refused. *)
Example decode_refuses :
  Utf8.decode_bytes [xc0; x80] = None
  /\ Utf8.decode_bytes [xed; xa0; x80] = None
  /\ Utf8.decode_bytes [xf4; x90; x80; x80] = None
  /\ Utf8.decode_bytes [x80] = None
  /\ Utf8.decode_bytes [x61; xe2; x82] = None.
Proof. repeat split. Qed.

Example readlines_mixed_ends :
  TextIO.readlines (lit "ab" ++ [13; 10; 13] ++ lit "c" ++ [10; 10] ++ lit "d")%N
  = [lit "ab" ++ nl; nl; lit "c" ++ nl; nl; lit "d"].
Proof. reflexivity. Qed.

Lemma decode_ascii (bs : list N) :
  Forall (fun b => (b < 128)%N) bs -> Utf8.decode bs = Some bs.
Proof.
  induction 1 as [|b bs Hb _ IH]; [reflexivity|].
  cbn [Utf8.decode]. apply N.ltb_lt in Hb. now rewrite Hb, IH.
Qed.

(* ================================================================= *)
(** ** Strings: equality and suffixes *)

Lemma eqb_eq (a b : pystr) : PyStr.eqb a b = true <-> a = b.
Proof.
  revert b; induction a as [|x a IH]; intros [|y b]; simpl;
    try (split; [discriminate | congruence]).
  - split; reflexivity.
  - rewrite andb_true_iff, N.eqb_eq, IH. split.
    + intros [-> ->]; reflexivity.
    + intros H; inversion H; auto.
Qed.

Lemma eqb_refl (a : pystr) : PyStr.eqb a a = true.
Proof. apply eqb_eq; reflexivity. Qed.

Lemma eqb_neq (a b : pystr) : PyStr.eqb a b = false <-> a <> b.
Proof.
  rewrite <- eqb_eq. destruct (PyStr.eqb a b); split; congruence.
Qed.

Lemma mem_In (x : pystr) (xs : list pystr) : mem x xs = true <-> In x xs.
Proof.
  unfold mem. rewrite existsb_exists. split.
  - intros [y [Hy E]]. apply eqb_eq in E. subst; assumption.
  - intros H. exists x. split; [assumption | apply eqb_refl].
Qed.

Lemma endswith1_suffix (s suffix : pystr) :
  endswith1 s suffix = true <-> exists base, s = base ++ suffix.
Proof.
  unfold endswith1. rewrite andb_true_iff, Nat.leb_le, eqb_eq. split.
  - intros [_ E].
    exists (firstn (length s - length suffix) s).
    rewrite <- (firstn_skipn (length s - length suffix) s) at 1.
    f_equal. exact E.
  - intros [base ->]. rewrite length_app. split; [lia|].
    replace (length base + length suffix - length suffix)%nat
      with (length base) by lia.
    rewrite skipn_app, skipn_all, Nat.sub_diag. reflexivity.
Qed.

Lemma endswith_suffix (s : pystr) (suffixes : list pystr) :
  endswith s suffixes = true
  <-> exists base ext, In ext suffixes /\ s = base ++ ext.
Proof.
  unfold endswith. rewrite existsb_exists. split.
  - intros [ext [Hin E]]. apply endswith1_suffix in E as [base ->].
    exists base, ext; auto.
  - intros [base [ext [Hin ->]]]. exists ext. split; [assumption|].
    apply endswith1_suffix. exists base; reflexivity.
Qed.

(** No excluded name carries a recognised extension. *)
Lemma excluded_not_selected (name : pystr) :
  mem name exclude_folders = true -> endswith name file_extensions = false.
Proof.
  intros H. apply mem_In in H. destruct H as [<- | []]. reflexivity.
Qed.

(* ================================================================= *)
(** ** Reading lines *)

Lemma concat_split_lines (s : pystr) : concat (TextIO.split_lines s) = s.
Proof.
  induction s as [|c r IH]; simpl; [reflexivity|].
  destruct (c =? TextIO.LF)%N.
  - simpl. now rewrite IH.
  - destruct (TextIO.split_lines r) as [|l ls]; simpl in *.
    + now rewrite <- IH.
    + now rewrite <- IH.
Qed.

Lemma concat_readlines (text : pystr) :
  concat (TextIO.readlines text) = TextIO.translate_newlines text.
Proof. apply concat_split_lines. Qed.

Lemma split_lines_nonempty (s : pystr) :
  Forall (fun l => l <> []) (TextIO.split_lines s).
Proof.
  induction s as [|c r IH]; simpl; [constructor|].
  destruct (c =? TextIO.LF)%N.
  - constructor; [discriminate | assumption].
  - destruct (TextIO.split_lines r) as [|l ls].
    + constructor; [discriminate | constructor].
    + inversion IH; subst. constructor; [discriminate | assumption].
Qed.

(** Every line but the last ends with a line feed. *)
Lemma split_lines_ends (s : pystr) :
  forall ls l, TextIO.split_lines s = ls ++ [l] ->
    Forall (fun x => exists body, x = body ++ [TextIO.LF]) ls.
Proof.
  induction s as [|c r IH]; intros ls l E; simpl in E.
  - now destruct ls.
  - destruct (c =? TextIO.LF)%N eqn:Q.
    + apply N.eqb_eq in Q; subst c.
      destruct ls as [|x ls]; [constructor|].
      injection E as <- E. constructor; [now exists []|].
      now apply (IH ls l).
    + destruct (TextIO.split_lines r) as [|y ys] eqn:R.
      * destruct ls as [|x [|x' ls]]; [constructor | discriminate..].
      * destruct ls as [|x ls]; [constructor|].
        injection E as <- E.
        assert (Forall (fun x => exists body, x = body ++ [TextIO.LF])
                  (y :: ls)) as H.
        { apply (IH (y :: ls) l). simpl. congruence. }
        inversion H as [|? ? [body ->] Hls]; subst.
        constructor; [now exists (c :: body) | exact Hls].
Qed.

(* ================================================================= *)
(** ** Sequencing *)

Lemma for_each_app {A} (xs ys : list A) (f : A -> M unit) (st : state) :
  for_each (xs ++ ys) f st = (for_each xs f ;; for_each ys f) st.
Proof.
  revert st; induction xs as [|x xs IH]; intros st; simpl.
  - reflexivity.
  - unfold bind in *. destruct (f x st) as [[] st'|e st']; auto.
Qed.

Lemma for_each_ext {A} (xs : list A) (f g : A -> M unit) :
  (forall x st, In x xs -> f x st = g x st) ->
  forall st, for_each xs f st = for_each xs g st.
Proof.
  induction xs as [|x xs IH]; intros E st; simpl; [reflexivity|].
  unfold bind. rewrite (E x st) by (left; reflexivity).
  destruct (g x st) as [[] st'|e st']; [|reflexivity].
  apply IH. intros y st'' Hy. apply E. right; assumption.
Qed.

Lemma for_each_map {A B} (h : A -> B) (xs : list A) (f : B -> M unit)
    (st : state) :
  for_each (map h xs) f st = for_each xs (fun x => f (h x)) st.
Proof.
  revert st; induction xs as [|x xs IH]; intros st; simpl; [reflexivity|].
  unfold bind. destruct (f (h x) st) as [[] st'|e st']; auto.
Qed.

Lemma for_each_flat_map {A B} (h : A -> list B) (xs : list A)
    (f : B -> M unit) (st : state) :
  for_each (flat_map h xs) f st = for_each xs (fun x => for_each (h x) f) st.
Proof.
  revert st; induction xs as [|x xs IH]; intros st; simpl; [reflexivity|].
  rewrite for_each_app. unfold bind.
  destruct (for_each (h x) f st) as [[] st'|e st']; auto.
Qed.

Lemma for_each_skip {A} (xs : list A) (f : A -> M unit) :
  (forall x st, In x xs -> f x st = Ok tt st) ->
  forall st, for_each xs f st = Ok tt st.
Proof.
  induction xs as [|x xs IH]; intros E st; simpl; [reflexivity|].
  unfold bind. rewrite (E x st) by (left; reflexivity).
  apply IH. intros y st' Hy. apply E. right; assumption.
Qed.

(** Printing a list of lines appends one print per line to the trace. *)
Lemma print_lines (ls : list pystr) (st : state) :
  for_each ls (fun line => print SLine line []) st
  = Ok tt (mkState (total_lines st)
             (trace st ++ map (EPrint SLine) ls)).
Proof.
  revert st; induction ls as [|l ls IH]; intros [t tr]; simpl.
  - unfold ret. now rewrite app_nil_r.
  - run_unfold. rewrite IH. simpl.
    now rewrite app_nil_r, <- app_assoc.
Qed.

(* ================================================================= *)
(** ** One file *)

Lemma process_file_skipped root dir es file st :
  endswith file file_extensions = false ->
  process_file root dir es file st = Ok tt st.
Proof. intros E. unfold process_file. now rewrite E. Qed.

Lemma process_file_oserror root dir es file e st :
  endswith file file_extensions = true ->
  fs_open es file = Unreadable e ->
  process_file root dir es file st
  = Raise (OSError e)
      (mkState (total_lines st)
         (trace st ++ [EOpen dir file (PosixPath.join root file)])).
Proof.
  intros E O. unfold process_file, open_readlines. rewrite E, O.
  reflexivity.
Qed.

Lemma process_file_undecodable root dir es file content st :
  endswith file file_extensions = true ->
  fs_open es file = Readable content ->
  Utf8.decode_bytes content = None ->
  process_file root dir es file st
  = Ok tt
      (mkState (total_lines st)
         (trace st ++ [EOpen dir file (PosixPath.join root file);
                       EPrint SError
                         (error_text (PosixPath.join root file) content)])).
Proof.
  intros E O D. unfold process_file, open_readlines. rewrite E, O, D.
  run_unfold. unfold error_text.
  now rewrite <- !app_assoc.
Qed.

Lemma process_file_decoded root dir es file content text st :
  endswith file file_extensions = true ->
  fs_open es file = Readable content ->
  Utf8.decode_bytes content = Some text ->
  process_file root dir es file st
  = Ok tt
      (mkState (total_lines st + Z.of_nat (length (TextIO.readlines text)))
         (trace st
          ++ [EOpen dir file (PosixPath.join root file);
              EPrint SHeader (header_text (PosixPath.join root file))]
          ++ map (EPrint SLine) (TextIO.readlines text)
          ++ [EPrint SSeparator separator_text])).
Proof.
  intros E O D. unfold process_file, open_readlines. rewrite E, O, D.
  run_unfold. rewrite print_lines. simpl.
  unfold header_text, separator_text.
  now rewrite <- !app_assoc.
Qed.

(* ================================================================= *)
(** ** The tree *)

Lemma node_induction (P : node -> Prop) :
  (forall f, P (File f)) ->
  (forall es, Forall (fun e => P (snd e)) es -> P (Dir es)) ->
  (forall es, P (Locked es)) ->
  (forall es, P (Dir es) -> P (DirLink es)) ->
  forall n, P n.
Proof.
  intros HF HD HL HK. fix IH 1.
  intros [f|es|es|es]; [apply HF| |apply HL|apply HK];
    apply HD; induction es as [|[nm c] es IHes]; constructor;
    solve [apply IH | exact IHes].
Qed.

Lemma lookup_In (es : entries) (name : pystr) (n : node) :
  lookup es name = Some n -> In (name, n) es.
Proof.
  induction es as [|[nm c] es IH]; simpl; [discriminate|].
  destruct (PyStr.eqb nm name) eqn:E.
  - apply eqb_eq in E. intros [= ->]. left; congruence.
  - intros H. right; auto.
Qed.

Lemma distinct_lookup (es : entries) (name : pystr) (n : node) :
  distinct (map fst es) = true -> In (name, n) es ->
  lookup es name = Some n.
Proof.
  induction es as [|[nm c] es IH]; simpl; [contradiction|].
  rewrite andb_true_iff, negb_true_iff. intros [Hm Hd] [H|H].
  - inversion H; subst. now rewrite eqb_refl.
  - destruct (PyStr.eqb nm name) eqn:E; [|auto].
    apply eqb_eq in E; subst nm. exfalso.
    assert (mem name (map fst es) = true) as C; [|congruence].
    apply mem_In. now apply (in_map fst) in H.
Qed.

(* ================================================================= *)
(** ** The walk follows its schedule *)

Lemma bind_run {A B} (m : M A) (k : A -> M B) (st : state) :
  (x <- m ;; k x) st
  = match m st with Ok a st' => k a st' | Raise e st' => Raise e st' end.
Proof. reflexivity. Qed.

Lemma walk_node_dir (bd : Os.loop_body) top loc es st :
  Os.walk_node bd top loc (Dir es) st
  = (dirs <- bd top loc es (dir_names es) (nondir_names es) ;;
     for_each dirs (fun dirname =>
       match lookup es dirname with
       | Some child =>
           if is_link child then ret tt
           else
             emit (EScandir (loc ++ [dirname])
                     (PosixPath.join top dirname)) ;;
             Os.walk_node bd (PosixPath.join top dirname)
               (loc ++ [dirname]) child
       | None =>
           emit (EScandir (loc ++ [dirname]) (PosixPath.join top dirname))
       end)) st.
Proof.
  cbn [Os.walk_node]. rewrite !bind_run.
  destruct (bd top loc es (dir_names es) (nondir_names es) st)
    as [dirs st'|e st']; [|reflexivity].
  apply for_each_ext. intros d st'' _.
  generalize es. intros l.
  induction l as [|[nm c] l IHl]; cbn [lookup]; [reflexivity|].
  destruct (PyStr.eqb nm d); [reflexivity | apply IHl].
Qed.

Lemma schedule_dir top loc es :
  schedule top loc (Dir es)
  = map (AFile top loc es) (nondir_names es)
    ++ flat_map
         (fun dirname =>
            match lookup es dirname with
            | Some child =>
                if is_link child then []
                else
                  AScan (loc ++ [dirname]) (PosixPath.join top dirname)
                  :: schedule (PosixPath.join top dirname)
                       (loc ++ [dirname]) child
            | None =>
                [AScan (loc ++ [dirname]) (PosixPath.join top dirname)]
            end)
         (filter (fun d => negb (mem d exclude_folders)) (dir_names es)).
Proof.
  cbn [schedule]. f_equal. apply flat_map_ext. intros d.
  generalize es. intros l.
  induction l as [|[nm c] l IHl]; cbn [lookup]; [reflexivity|].
  destruct (PyStr.eqb nm d); [reflexivity | apply IHl].
Qed.

Lemma body_run root dir es dirs files st :
  body root dir es dirs files st
  = match for_each files (process_file root dir es) st with
    | Ok _ st' =>
        Ok (filter (fun d => negb (mem d exclude_folders)) dirs) st'
    | Raise e st' => Raise e st'
    end.
Proof. reflexivity. Qed.

Lemma walk_schedule (n : node) :
  forall top loc st,
    Os.walk_node body top loc n st
    = for_each (schedule top loc n) perform st.
Proof.
  induction n as [f|es IH|es|es HD] using node_induction;
    [| | |exact HD]; intros top loc st;
    try reflexivity.
  rewrite walk_node_dir, schedule_dir, for_each_app.
  rewrite !bind_run, body_run, for_each_map. simpl perform.
  destruct (for_each (nondir_names es) _ st) as [[] st'|e st'];
    [|reflexivity].
  rewrite for_each_flat_map.
  apply for_each_ext. intros d st'' _.
  destruct (lookup es d) as [child|] eqn:L; [|reflexivity].
  destruct (is_link child); [reflexivity|].
  cbn [for_each perform]. rewrite !bind_run.
  destruct (emit _ st'') as [[] st3|e st3]; [|reflexivity].
  apply lookup_In in L. rewrite Forall_forall in IH.
  apply (IH _ L).
Qed.

(* ================================================================= *)
(** ** The schedule visits the files outside the excluded directories *)

Lemma under_excluded_app (loc : location) (d : pystr) :
  under_excluded (loc ++ [d])
  = under_excluded loc || mem d exclude_folders.
Proof.
  unfold under_excluded. rewrite existsb_app. simpl.
  now rewrite orb_false_r.
Qed.

Lemma all_files_under (n : node) :
  forall loc, under_excluded loc = true ->
    filter outside (all_files loc n) = [].
Proof.
  induction n as [f|es IH|es|es HD] using node_induction;
    [| | |exact HD]; intros loc U;
    try reflexivity.
  cbn [all_files]. rewrite filter_app.
  assert (forall l : entries,
            filter outside
              (flat_map (fun e => match snd e with
                                  | File f => [(loc, fst e, f)]
                                  | _ => []
                                  end) l) = []) as H1.
  { induction l as [|[nm [f|es'|es'|es']] l IHl];
      cbn [flat_map fst snd app]; auto.
    cbn [filter]. unfold outside at 1. cbn [fst snd]. now rewrite U. }
  rewrite H1. cbn [app].
  induction IH as [|[nm c] l Hc _ IHl]; [reflexivity|].
  cbn [flat_map fst snd] in *.
  destruct c as [f|es'|es'|es']; cbn [app]; try exact IHl.
  assert (under_excluded (loc ++ [nm]) = true) as U'
    by (rewrite under_excluded_app, U; reflexivity).
  rewrite filter_app. exact (f_equal2 (@app _) (Hc _ U') IHl).
Qed.

Lemma schedule_visits (n : node) :
  forall top loc, wf n = true -> under_excluded loc = false ->
    flat_map visit_of (schedule top loc n)
    = filter outside (all_files loc n).
Proof.
  induction n as [f|es IH|es|es HD] using node_induction;
    [| | |exact HD]; intros top loc W U;
    try reflexivity.
  simpl in W. apply andb_true_iff in W as [Wd Wc].
  rewrite forallb_forall in Wc. rewrite Forall_forall in IH.
  rewrite schedule_dir. cbn [all_files].
  rewrite flat_map_app, filter_app. f_equal.
  - (* the files of this directory *)
    unfold nondir_names.
    assert (forall l : entries, incl l es ->
              flat_map visit_of
                (map (AFile top loc es)
                   (map fst (filter (fun e => negb (is_dir (snd e))) l)))
              = filter outside
                  (flat_map (fun e => match snd e with
                                      | File f => [(loc, fst e, f)]
                                      | _ => []
                                      end) l)) as H.
    { induction l as [|[nm [f|es'|es'|es']] l IHl]; intros I;
        cbn [flat_map filter map fst snd is_dir negb app];
        try (apply IHl; intros x Hx; apply I; right; assumption).
      - reflexivity.
      - unfold outside at 1. cbn [fst snd visit_of]. rewrite U.
        cbn [negb app].
        unfold fs_open.
        rewrite (distinct_lookup es nm (File f) Wd)
          by (apply I; left; reflexivity).
        f_equal. apply IHl. intros x Hx. apply I. right; assumption. }
    apply H. apply incl_refl.
  - (* the directories below it *)
    unfold dir_names.
    assert (forall l : entries, incl l es ->
              flat_map visit_of
                (flat_map
                   (fun dirname =>
                      match lookup es dirname with
                      | Some child =>
                          if is_link child then []
                          else
                            AScan (loc ++ [dirname])
                              (PosixPath.join top dirname)
                            :: schedule (PosixPath.join top dirname)
                                 (loc ++ [dirname]) child
                      | None =>
                          [AScan (loc ++ [dirname])
                             (PosixPath.join top dirname)]
                      end)
                   (filter (fun d => negb (mem d exclude_folders))
                      (map fst (filter (fun e => is_dir (snd e)) l))))
              = filter outside
                  (flat_map (fun e => match snd e with
                                      | Dir _ =>
                                          all_files (loc ++ [fst e]) (snd e)
                                      | _ => []
                                      end) l)) as H.
    { induction l as [|[nm c] l IHl]; intros I; [reflexivity|].
      assert (In (nm, c) es) as Hin by (apply I; left; reflexivity).
      assert (incl l es) as I' by (intros x Hx; apply I; right; assumption).
      specialize (IHl I').
      destruct c as [f|es'|es'|es'];
        cbn [flat_map filter map fst snd is_dir negb app];
        try exact IHl;
        (destruct (mem nm exclude_folders) eqn:X;
         cbn [flat_map filter map fst snd negb app visit_of];
         [| rewrite (distinct_lookup es nm _ Wd Hin);
            cbn [is_link flat_map visit_of app schedule] ]);
        try exact IHl.
      - rewrite filter_app, all_files_under
          by (rewrite under_excluded_app, X; apply orb_true_r).
        exact IHl.
      - rewrite filter_app, flat_map_app. f_equal; [|exact IHl].
        apply (IH _ Hin).
        + apply (Wc _ Hin).
        + rewrite under_excluded_app, U, X. reflexivity. }
    apply H. apply incl_refl.
Qed.

(* ================================================================= *)
(** ** Running a schedule *)

Lemma perform_effect (a : action) (st : state) :
  match a with
  | AScan loc path =>
      perform a st
      = Ok tt (mkState (total_lines st) (trace st ++ [EScandir loc path]))
  | AFile root dir es file =>
      let file_path := PosixPath.join root file in
      if endswith file file_extensions then
        match fs_open es file with
        | Unreadable e =>
            perform a st
            = Raise (OSError e)
                (mkState (total_lines st)
                   (trace st ++ [EOpen dir file file_path]))
        | Readable content =>
            match Utf8.decode_bytes content with
            | None =>
                perform a st
                = Ok tt
                    (mkState (total_lines st)
                       (trace st
                        ++ [EOpen dir file file_path;
                            EPrint SError (error_text file_path content)]))
            | Some text =>
                perform a st
                = Ok tt
                    (mkState
                       (total_lines st
                        + Z.of_nat (length (TextIO.readlines text)))
                       (trace st
                        ++ [EOpen dir file file_path;
                            EPrint SHeader (header_text file_path)]
                        ++ map (EPrint SLine) (TextIO.readlines text)
                        ++ [EPrint SSeparator separator_text]))
            end
        end
      else perform a st = Ok tt st
  end.
Proof.
  destruct a as [loc path|root dir es file]; [reflexivity|].
  cbn zeta. destruct (endswith file file_extensions) eqn:E.
  - destruct (fs_open es file) as [content|e] eqn:O.
    + destruct (Utf8.decode_bytes content) as [text|] eqn:D.
      * eapply process_file_decoded; eassumption.
      * eapply process_file_undecodable; eassumption.
    + eapply process_file_oserror; eassumption.
  - apply process_file_skipped; assumption.
Qed.

Ltac perform_cases a st :=
  let H := fresh "H" in
  pose proof (perform_effect a st) as H;
  destruct a as [?loc ?path|?root ?dir ?es ?name];
  [| cbn zeta in H;
     destruct (endswith _ file_extensions) eqn:?E;
     [ destruct (fs_open _ _) as [?content|?oe] eqn:?O;
       [ destruct (Utf8.decode_bytes _) as [?text|] eqn:?D | ] | ] ].

Lemma sum_lines_app xs ys :
  sum_lines (xs ++ ys) = (sum_lines xs + sum_lines ys)%Z.
Proof.
  unfold sum_lines. induction xs as [|x xs IH]; simpl; [reflexivity|].
  rewrite IH. lia.
Qed.

Lemma sum_lines_counted_cons (a : action) (acts : list action) :
  sum_lines (counted (a :: acts))
  = (gain a + sum_lines (counted acts))%Z.
Proof.
  unfold counted. cbn [flat_map]. rewrite !filter_app, sum_lines_app.
  f_equal. destruct a as [loc path|root dir es name]; [reflexivity|].
  cbn [visit_of filter gain]. unfold eligible. cbn [fst snd].
  destruct (endswith name file_extensions); [|reflexivity].
  cbn [filter snd]. unfold decodes, line_count.
  destruct (decoded_lines (fs_open es name)) as [ls|] eqn:L.
  - unfold sum_lines. cbn [map fold_right snd]. unfold line_count.
    rewrite L. lia.
  - reflexivity.
Qed.

(** A run that completes has added the line counts of the files it
    decoded. *)
Lemma run_total (acts : list action) :
  forall st st',
    for_each acts perform st = Ok tt st' ->
    total_lines st' = (total_lines st + sum_lines (counted acts))%Z.
Proof.
  induction acts as [|a acts IH]; intros st st' R.
  - simpl in R. injection R as <-. unfold counted, sum_lines. simpl. lia.
  - simpl in R. rewrite bind_run in R. rewrite sum_lines_counted_cons.
    perform_cases a st; rewrite H in R; try discriminate;
      apply IH in R; rewrite R; cbn [gain total_lines];
      try rewrite E; unfold line_count, decoded_lines;
      try rewrite O; try rewrite D; cbn [option_map]; lia.
Qed.

(** A run completes when every eligible file it meets can be read. *)
Lemma run_completes (acts : list action) :
  existsb (fun x => unreadable (snd x))
    (filter eligible (flat_map visit_of acts)) = false ->
  forall st, exists st', for_each acts perform st = Ok tt st'.
Proof.
  induction acts as [|a acts IH]; intros F st.
  - exists st; reflexivity.
  - cbn [flat_map] in F. rewrite filter_app, existsb_app in F.
    apply orb_false_iff in F as [Fa F].
    simpl. rewrite bind_run.
    perform_cases a st; rewrite H; try (now apply IH).
    exfalso. cbn [visit_of filter] in Fa. unfold eligible in Fa.
    cbn [fst snd] in Fa. rewrite E in Fa. cbn [existsb snd] in Fa.
    rewrite O in Fa. discriminate.
Qed.

(** A run stops at the first eligible file that cannot be read: the
    [OSError] comes out, and the failed open is the last thing done. *)
Lemma run_raise (acts : list action) :
  forall st e st',
    for_each acts perform st = Raise e st' ->
    exists root dir es name oe pre,
      In (AFile root dir es name) acts
      /\ endswith name file_extensions = true
      /\ fs_open es name = Unreadable oe
      /\ e = OSError oe
      /\ trace st' = pre ++ [EOpen dir name (PosixPath.join root name)].
Proof.
  induction acts as [|a acts IH]; intros st e st' R; [discriminate|].
  simpl in R. rewrite bind_run in R.
  assert (forall st1, for_each acts perform st1 = Raise e st' ->
            exists root dir es name oe pre,
              In (AFile root dir es name) (a :: acts)
              /\ endswith name file_extensions = true
              /\ fs_open es name = Unreadable oe
              /\ e = OSError oe
              /\ trace st' = pre ++ [EOpen dir name (PosixPath.join root name)])
    as Later.
  { intros st1 R1.
    destruct (IH _ _ _ R1) as (r & d & es & f & oe & pre & Hin & Hrest).
    exists r, d, es, f, oe, pre. split; [right; exact Hin | exact Hrest]. }
  perform_cases a st; rewrite H in R; try (now apply (Later _ R)).
  injection R as <- <-.
  exists root, dir, es, name, oe, (trace st).
  repeat split; auto. left; reflexivity.
Qed.

Lemma run_aborts (acts : list action) :
  existsb (fun x => unreadable (snd x))
    (filter eligible (flat_map visit_of acts)) = true ->
  forall st, exists e st', for_each acts perform st = Raise e st'.
Proof.
  induction acts as [|a acts IH]; intros F st; [discriminate|].
  cbn [flat_map] in F. rewrite filter_app, existsb_app in F.
  simpl. rewrite bind_run.
  perform_cases a st; rewrite H; cbn [visit_of filter] in F;
    unfold eligible in F; cbn [fst snd] in F;
    try rewrite E in F; cbn [existsb snd app filter] in F;
    try rewrite O in F; cbn [unreadable orb] in F;
    try (now apply IH); eauto.
Qed.

(** What any run adds to the state: a non-negative number of lines and
    events that belong to its steps. *)
Lemma run_delta (acts : list action) :
  forall st, exists k evs,
    (0 <= k)%Z
    /\ state_of (for_each acts perform st)
       = mkState (total_lines st + k) (trace st ++ evs)
    /\ Forall (fun e => exists a, In a acts /\ event_of a e) evs.
Proof.
  induction acts as [|a acts IH]; intros st.
  - exists 0%Z, []. simpl. rewrite Z.add_0_r, app_nil_r.
    destruct st; repeat split; [lia | constructor].
  - assert (forall k1 evs1 st1,
              (0 <= k1)%Z ->
              st1 = mkState (total_lines st + k1) (trace st ++ evs1) ->
              Forall (event_of a) evs1 ->
              exists k evs,
                (0 <= k)%Z
                /\ state_of (for_each acts perform st1)
                   = mkState (total_lines st + k) (trace st ++ evs)
                /\ Forall (fun e => exists a0, In a0 (a :: acts)
                                               /\ event_of a0 e) evs)
      as Next.
    { intros k1 evs1 st1 Hk -> Ha.
      destruct (IH (mkState (total_lines st + k1) (trace st ++ evs1)))
        as (k2 & evs2 & Hk2 & E2 & F2).
      exists (k1 + k2)%Z, (evs1 ++ evs2). split; [lia|]. split.
      - rewrite E2. simpl. f_equal; [lia | now rewrite app_assoc].
      - apply Forall_app. split.
        + eapply Forall_impl; [|exact Ha]. intros e He.
          exists a. split; [left; reflexivity | exact He].
        + eapply Forall_impl; [|exact F2]. intros e (a0 & Hin & He).
          exists a0. split; [right; exact Hin | exact He]. }
    simpl. rewrite bind_run.
    perform_cases a st; rewrite H.
    + eapply (Next 0%Z); [lia | now rewrite Z.add_0_r |].
      repeat constructor.
    + eapply (Next (Z.of_nat (length (TextIO.readlines text))));
        [lia | reflexivity |].
      repeat constructor; try discriminate.
      apply Forall_app. split.
      * apply Forall_forall. intros e He. apply in_map_iff in He.
        destruct He as [l [<- _]]. simpl. discriminate.
      * repeat constructor. discriminate.
    + eapply (Next 0%Z); [lia | now rewrite Z.add_0_r |].
      repeat constructor. discriminate.
    + simpl.
      exists 0%Z, [EOpen dir name (PosixPath.join root name)].
      rewrite Z.add_0_r. split; [lia|]. split; [reflexivity|].
      repeat constructor.
      exists (AFile root dir es name). split; [left; reflexivity|].
      simpl. auto.
    + eapply (Next 0%Z nil); [lia | | constructor].
      rewrite Z.add_0_r, app_nil_r. now destruct st.
Qed.

(* ================================================================= *)
(** ** The whole run *)

Lemma main_run (fs : node) :
  main fs
  = match for_each (plan fs) perform initial with
    | Ok _ st =>
        Ok tt (mkState (total_lines st)
                 (trace st
                  ++ [EPrint SSummary (summary_text (total_lines st))]))
    | Raise e st => Raise e st
    end.
Proof.
  unfold main, Os.walk, plan. rewrite bind_run. cbn [for_each].
  rewrite !bind_run.
  destruct (emit (EScandir [] directory_path) initial) as [[] st0|e st0] eqn:E0;
    [|discriminate].
  cbn [perform]. rewrite E0, walk_schedule.
  destruct (for_each _ perform st0) as [[] st|e st]; [|reflexivity].
  unfold summary, summary_text. run_unfold. reflexivity.
Qed.

Lemma filter_filter {A} (p q : A -> bool) (l : list A) :
  filter p (filter q l) = filter (fun x => p x && q x) l.
Proof.
  induction l as [|x l IH]; simpl; [reflexivity|].
  destruct (q x); simpl; rewrite ?andb_true_r, ?andb_false_r.
  - destruct (p x); now rewrite IH.
  - exact IH.
Qed.

(** Under unique names, the files the plan works on are the selected files
    of the tree. *)
Lemma plan_visits (fs : node) :
  wf fs = true ->
  filter eligible (flat_map visit_of (plan fs)) = selected_files fs.
Proof.
  intros W. unfold plan. cbn [flat_map visit_of app].
  rewrite (schedule_visits fs directory_path [] W) by reflexivity.
  apply filter_filter.
Qed.

Lemma stdout_lines (ls : list pystr) :
  stdout (map (EPrint SLine) ls) = concat ls.
Proof.
  unfold stdout. rewrite map_map. cbn [printed]. now rewrite map_id.
Qed.

Lemma stdout_app (tr1 tr2 : list event) :
  stdout (tr1 ++ tr2) = stdout tr1 ++ stdout tr2.
Proof. unfold stdout. now rewrite map_app, concat_app. Qed.

(* ================================================================= *)
(** ** Listing order and the files of the tree *)

Lemma filter_permutation {A} (p : A -> bool) (xs ys : list A) :
  Permutation xs ys -> Permutation (filter p xs) (filter p ys).
Proof.
  induction 1 as [|x xs ys _ IH|x y xs|xs ys zs _ IH1 _ IH2]; cbn [filter].
  - constructor.
  - destruct (p x); [now constructor | exact IH].
  - destruct (p x), (p y); try apply Permutation_refl.
    apply perm_swap.
  - now transitivity (filter p ys).
Qed.

Lemma sum_lines_permutation xs ys :
  Permutation xs ys -> sum_lines xs = sum_lines ys.
Proof.
  unfold sum_lines.
  induction 1 as [|x xs ys _ IH|x y xs|xs ys zs _ IH1 _ IH2];
    cbn [map fold_right]; lia.
Qed.

Lemma existsb_permutation {A} (p : A -> bool) (xs ys : list A) :
  Permutation xs ys -> existsb p xs = existsb p ys.
Proof.
  induction 1 as [|x xs ys _ IH|x y xs|xs ys zs _ IH1 _ IH2];
    cbn [existsb].
  - reflexivity.
  - now rewrite IH.
  - now destruct (p x), (p y).
  - congruence.
Qed.

(** Where every directory can be listed and none is a link, the files a
    walk can come to are all the files of the tree. *)
Lemma tree_files_listed (n : node) :
  forall loc, listed n = true ->
    Permutation (tree_files loc n) (all_files loc n).
Proof.
  induction n as [f|es IH|es|es _] using node_induction; intros loc L;
    try discriminate; [apply Permutation_refl|].
  cbn [listed] in L. cbn [tree_files all_files].
  induction IH as [|[nm c] es Hc _ IHes]; [apply Permutation_refl|].
  cbn [forallb snd] in L. apply andb_true_iff in L as [Lc Les].
  specialize (IHes Les). cbn [flat_map fst snd] in *.
  destruct c as [f|ces|ces|ces]; try discriminate; cbn [app].
  - apply perm_skip. exact IHes.
  - eapply Permutation_trans; [|apply Permutation_app_swap_app].
    apply Permutation_app; [apply (Hc _ Lc) | exact IHes].
Qed.

Lemma claimed_total_listed (fs : node) :
  listed fs = true -> expected_total fs = claimed_total fs.
Proof.
  intros L. unfold expected_total, claimed_total, selected_files.
  apply sum_lines_permutation, filter_permutation, filter_permutation.
  apply Permutation_sym. now apply tree_files_listed.
Qed.

(* ================================================================= *)
(** ** Properties of the scan *)

(** C1, as amended.  In a tree whose directories list each name once, a
    run that reaches its last line reports as [Total lines] the sum of the
    line counts (universal-newline [readlines]) of the files whose name
    ends in [.js], [.html], [.css] or [.py], that the walk comes to (they
    lie under no directory named [node_modules], under no directory that
    cannot be listed and under no symbolic link to a directory) and that
    decode as UTF-8; that line is the last thing printed.  The run does
    reach its last line when every such file can be opened.  Where every
    directory can be listed and none is a link, these are all the files
    of the tree with such a name outside [node_modules]. *)
Theorem total_is_sum_over_selected_files (fs : node) :
  wf fs = true ->
  (forall st, main fs = Ok tt st ->
     total_lines st = expected_total fs
     /\ exists before,
          trace st
          = before
            ++ [EPrint SSummary
                  (lit "Total lines: " ++ str_of_int (expected_total fs)
                   ++ nl)]
          /\ stdout (trace st)
             = stdout before
               ++ lit "Total lines: " ++ str_of_int (expected_total fs)
               ++ nl)
  /\ (existsb (fun x => unreadable (snd x)) (selected_files fs) = false ->
      exists st, main fs = Ok tt st)
  /\ (listed fs = true -> expected_total fs = claimed_total fs).
Proof.
  intros W. split; [|split; [|apply claimed_total_listed]].
  - intros st R. rewrite main_run in R.
    destruct (for_each (plan fs) perform initial) as [[] st1|e st1] eqn:F;
      [|discriminate].
    injection R as <-. apply run_total in F.
    unfold counted in F. rewrite (plan_visits fs W) in F.
    fold (expected_total fs) in F. cbn [initial total_lines] in F.
    rewrite Z.add_0_l in F. cbn [total_lines trace]. rewrite F.
    split; [reflexivity|].
    exists (trace st1). split; [reflexivity|].
    rewrite stdout_app. f_equal. unfold stdout, summary_text.
    cbn [map printed concat]. apply app_nil_r.
  - intros Hr. rewrite main_run.
    destruct (run_completes (plan fs)) with (st := initial) as [st1 R].
    + now rewrite (plan_visits fs W).
    + rewrite R. eauto.
Qed.

(** C3.  A name of [files] is selected exactly when it ends, case for
    case, in one of [.js], [.html], [.css], [.py]: then the file is opened,
    otherwise the loop leaves the state as it was.  [script.pyx] and
    [README] are not selected, the bare [.py] is, and an upper-case
    extension is not. *)
Theorem selection_by_exact_suffix :
  (forall root dir es name st,
     (exists rest,
        trace (state_of (process_file root dir es name st))
        = trace st ++ EOpen dir name (PosixPath.join root name) :: rest)
     <-> (exists base ext,
            In ext [lit ".js"; lit ".html"; lit ".css"; lit ".py"]
            /\ name = base ++ ext))
  /\ (forall root dir es name st,
        ~ (exists base ext,
             In ext [lit ".js"; lit ".html"; lit ".css"; lit ".py"]
             /\ name = base ++ ext) ->
        process_file root dir es name st = Ok tt st)
  /\ endswith (lit "script.pyx") file_extensions = false
  /\ endswith (lit ".py") file_extensions = true
  /\ endswith (lit "README") file_extensions = false
  /\ endswith (lit "MAIN.PY") file_extensions = false.
Proof.
  split; [|split; [|repeat split; reflexivity]].
  - intros root dir es name st.
    change [lit ".js"; lit ".html"; lit ".css"; lit ".py"]
      with file_extensions.
    rewrite <- endswith_suffix. split.
    + intros [rest Htr].
      destruct (endswith name file_extensions) eqn:E; [reflexivity|].
      rewrite process_file_skipped in Htr by assumption.
      apply (f_equal (@length event)) in Htr.
      rewrite length_app in Htr. simpl in Htr. lia.
    + intros E.
      pose proof (perform_effect (AFile root dir es name) st) as H.
      cbv beta iota zeta in H. rewrite E in H. cbn [perform] in H.
      destruct (fs_open es name) as [content|oe].
      * destruct (Utf8.decode_bytes content) as [text|];
          rewrite H; cbn [state_of trace app];
          eexists; reflexivity.
      * rewrite H. cbn [state_of trace]. eexists; reflexivity.
  - intros root dir es name st Hn. apply process_file_skipped.
    destruct (endswith name file_extensions) eqn:E; [|reflexivity].
    exfalso. apply Hn. now apply endswith_suffix.
Qed.

(** C4.  An eligible file whose bytes are not valid UTF-8 raises nothing
    out of the loop: the file is opened, one line
    [Error reading <file_path>: <description>] is printed, [total_lines]
    stays as it was, and the loop goes on with the files after it and then
    hands its directories back to the walk. *)
Theorem decode_failure_is_logged_and_skipped
    root dir es dirs before name after content st :
  endswith name file_extensions = true ->
  fs_open es name = Readable content ->
  Utf8.decode_bytes content = None ->
  let file_path := PosixPath.join root name in
  let logged :=
    [EOpen dir name file_path;
     EPrint SError
       (lit "Error reading " ++ file_path ++ lit ": " ++ describe content
        ++ nl)] in
  process_file root dir es name st
  = Ok tt (mkState (total_lines st) (trace st ++ logged))
  /\ body root dir es dirs (before ++ name :: after) st
     = (for_each before (process_file root dir es) ;;
        for_each logged emit ;;
        for_each after (process_file root dir es) ;;
        ret (filter (fun d => negb (mem d exclude_folders)) dirs)) st.
Proof.
  intros E O D file_path logged.
  pose proof (process_file_undecodable root dir es name content) as P.
  split; [now apply P|].
  rewrite body_run, for_each_app, !bind_run.
  destruct (for_each before _ st) as [[] st1|e st1]; [|reflexivity].
  cbn [for_each]. rewrite !bind_run, (P st1 E O D).
  unfold logged. cbn [for_each]. run_unfold.
  rewrite <- app_assoc. reflexivity.
Qed.

(** C5.  When a selected file cannot be opened or read for a reason other
    than its encoding, the [OSError] is not caught: the run ends with that
    exception, the failed open is the last thing it did, and the summary
    line is not printed. *)
Theorem other_errors_abort_the_run (fs : node) :
  wf fs = true ->
  existsb (fun x => unreadable (snd x)) (selected_files fs) = true ->
  exists oe st dir name path,
    main fs = Raise (OSError oe) st
    /\ In (dir, name, Unreadable oe) (selected_files fs)
    /\ (exists before, trace st = before ++ [EOpen dir name path])
    /\ (forall text, ~ In (EPrint SSummary text) (trace st)).
Proof.
  intros W Hex.
  destruct (run_aborts (plan fs)) with (st := initial) as (e & st1 & R);
    [now rewrite (plan_visits fs W)|].
  destruct (run_raise _ _ _ _ R)
    as (root & dir & es & name & oe & pre & Hin & E & O & -> & Htr).
  exists oe, st1, dir, name, (PosixPath.join root name).
  rewrite main_run, R. split; [reflexivity|]. split; [|split].
  - rewrite <- (plan_visits fs W). apply filter_In. split.
    + apply in_flat_map. exists (AFile root dir es name).
      split; [exact Hin|]. cbn [visit_of]. rewrite O. left; reflexivity.
    + exact E.
  - exists pre; exact Htr.
  - intros text Hs.
    destruct (run_delta (plan fs) initial) as (k & evs & _ & Hst & Hev).
    rewrite R in Hst. cbn [state_of] in Hst. rewrite Hst in Hs.
    cbn [trace initial app] in Hs.
    rewrite Forall_forall in Hev.
    destruct (Hev _ Hs) as ([loc p|r d es' nm] & _ & Hof); cbn in Hof.
    + exact Hof.
    + now apply Hof.
Qed.

(** C6.  For an eligible file that opens and decodes, the loop prints the
    header [Contents of <file_path>:], then each line of the file as read,
    with nothing added after it, then the separator: an empty line, a line
    of 50 hyphens and another empty line.  [total_lines] grows by the
    number of lines read. *)
Theorem decoded_file_is_printed_and_counted
    root dir es name content text st :
  endswith name file_extensions = true ->
  fs_open es name = Readable content ->
  Utf8.decode_bytes content = Some text ->
  let file_path := PosixPath.join root name in
  let file_lines := TextIO.readlines text in
  let header := lit "Contents of " ++ file_path ++ lit ":" ++ nl in
  let separator := [] ++ nl ++ repeat hyphen 50 ++ nl ++ [] ++ nl in
  exists st',
    process_file root dir es name st = Ok tt st'
    /\ total_lines st' = (total_lines st + Z.of_nat (length file_lines))%Z
    /\ trace st'
       = trace st
         ++ [EOpen dir name file_path; EPrint SHeader header]
         ++ map (EPrint SLine) file_lines
         ++ [EPrint SSeparator separator]
    /\ stdout (trace st')
       = stdout (trace st) ++ header ++ concat file_lines ++ separator
    /\ concat file_lines = TextIO.translate_newlines text.
Proof.
  intros E O D file_path file_lines header separator.
  eexists. split; [now apply (process_file_decoded _ _ _ _ content text)|].
  cbn [total_lines trace]. repeat split.
  - rewrite !stdout_app, stdout_lines. unfold stdout.
    cbn [map printed concat app]. rewrite !app_nil_r.
    reflexivity.
  - apply concat_readlines.
Qed.

(** C7.  [total_lines] starts at 0 and never goes down.  The only update
    is the one for a file: it adds the number of lines of an eligible file
    that was decoded, and nothing otherwise.  The loop body and the walk of
    any directory leave the total at least as large as they found it, also
    when they end in an exception; at every point of a run the total is at
    least what it was at any earlier point; and the summary does not
    change it. *)
Theorem total_lines_never_decreases :
  total_lines initial = 0%Z
  /\ (forall root dir es name st,
        let k := if endswith name file_extensions
                 then match decoded_lines (fs_open es name) with
                      | Some file_lines => Z.of_nat (length file_lines)
                      | None => 0%Z
                      end
                 else 0%Z in
        total_lines (state_of (process_file root dir es name st))
        = (total_lines st + k)%Z
        /\ (0 <= k)%Z)
  /\ (forall root dir es dirs files st,
        (total_lines st
         <= total_lines (state_of (body root dir es dirs files st)))%Z)
  /\ (forall top loc n st,
        (total_lines st
         <= total_lines (state_of (Os.walk_node body top loc n st)))%Z)
  /\ (forall acts more st,
        (total_lines st
         <= total_lines (state_of (for_each acts perform st))
         <= total_lines (state_of (for_each (acts ++ more) perform st)))%Z)
  /\ (forall fs,
        total_lines (state_of (main fs))
        = total_lines (state_of (for_each (plan fs) perform initial))).
Proof.
  assert (forall acts st,
            (total_lines st
             <= total_lines (state_of (for_each acts perform st)))%Z)
    as Mono.
  { intros acts st.
    destruct (run_delta acts st) as (k & evs & Hk & -> & _).
    cbn [total_lines]. lia. }
  split; [reflexivity|]. split; [|split; [|split; [|split]]].
  - intros root dir es name st k.
    pose proof (perform_effect (AFile root dir es name) st) as H.
    cbv beta iota zeta in H. cbn [perform] in H. subst k.
    unfold decoded_lines.
    destruct (endswith name file_extensions).
    + destruct (fs_open es name) as [content|oe].
      * destruct (Utf8.decode_bytes content) as [text|]; rewrite H;
          cbn [state_of total_lines option_map]; lia.
      * rewrite H. cbn [state_of total_lines]. lia.
    + rewrite H. cbn [state_of]. lia.
  - intros root dir es dirs files st. rewrite body_run.
    pose proof (Mono (map (AFile root dir es) files) st) as H.
    rewrite for_each_map in H. cbn [perform] in H.
    now destruct (for_each files _ st) as [[] st1|e st1].
  - intros top loc n st. rewrite walk_schedule. apply Mono.
  - intros acts more st. split; [apply Mono|].
    rewrite for_each_app, bind_run.
    destruct (for_each acts perform st) as [[] st1|e st1];
      cbn [state_of]; [apply Mono | lia].
  - intros fs. rewrite main_run.
    now destruct (for_each (plan fs) perform initial) as [[] st|e st].
Qed.

(** C9.  An eligible file of zero bytes still gets its header, followed at
    once by the separator, and leaves [total_lines] as it was. *)
Theorem empty_file_prints_header_and_separator root dir es name st :
  endswith name file_extensions = true ->
  fs_open es name = Readable [] ->
  let file_path := PosixPath.join root name in
  let header := lit "Contents of " ++ file_path ++ lit ":" ++ nl in
  let separator := [] ++ nl ++ repeat hyphen 50 ++ nl ++ [] ++ nl in
  process_file root dir es name st
  = Ok tt
      (mkState (total_lines st)
         (trace st
          ++ [EOpen dir name file_path;
              EPrint SHeader header;
              EPrint SSeparator separator]))
  /\ stdout
       [EOpen dir name file_path; EPrint SHeader header;
        EPrint SSeparator separator]
     = header ++ separator.
Proof.
  intros E O file_path header separator. split.
  - rewrite (process_file_decoded root dir es name [] [] st E O eq_refl).
    cbn [TextIO.readlines TextIO.translate_newlines TextIO.split_lines
         length map app Z.of_nat].
    now rewrite Z.add_0_r.
  - unfold stdout. cbn [map printed concat app]. now rewrite app_nil_r.
Qed.

(** C10.  For an eligible file that fails to decode, the open is followed
    by the error line and by nothing else: no header, no line of the file
    and no separator are printed. *)
Theorem decode_failure_prints_only_the_error_line
    root dir es name content st :
  endswith name file_extensions = true ->
  fs_open es name = Readable content ->
  Utf8.decode_bytes content = None ->
  let file_path := PosixPath.join root name in
  let error_line :=
    lit "Error reading " ++ file_path ++ lit ": " ++ describe content ++ nl
  in
  exists added,
    trace (state_of (process_file root dir es name st)) = trace st ++ added
    /\ added = [EOpen dir name file_path; EPrint SError error_line]
    /\ stdout added = error_line
    /\ (forall s t, In (EPrint s t) added -> s = SError /\ t = error_line).
Proof.
  intros E O D file_path error_line.
  rewrite (process_file_undecodable root dir es name content st E O D).
  eexists. split; [reflexivity|]. split; [reflexivity|]. split.
  - unfold stdout. cbn [map printed concat app]. apply app_nil_r.
  - intros s t [H|[H|[]]]; [discriminate|]. now inversion H.
Qed.

(* ================================================================= *)
(** ** What the walk does not look at *)

Lemma under_excluded_false (loc : location) :
  under_excluded loc = false <-> ~ In (lit "node_modules") loc.
Proof.
  unfold under_excluded. split.
  - intros H Hin.
    assert (existsb (fun d => mem d exclude_folders) loc = true) as C;
      [|congruence].
    apply existsb_exists. exists (lit "node_modules"). split; auto.
  - intros H. destruct (existsb _ loc) eqn:X; [|reflexivity].
    exfalso. apply H. apply existsb_exists in X as [d [Hd M]].
    apply mem_In in M. destruct M as [<- | []]. exact Hd.
Qed.

Lemma schedule_outside (n : node) :
  forall top loc, under_excluded loc = false ->
    Forall action_outside (schedule top loc n).
Proof.
  induction n as [f|es IH|es|es HD] using node_induction;
    [| | |exact HD]; intros top loc U;
    try constructor.
  rewrite schedule_dir. apply Forall_app. split.
  - apply Forall_forall. intros a Ha. apply in_map_iff in Ha.
    destruct Ha as [name [<- _]]. exact U.
  - apply Forall_flat_map, Forall_forall. intros d Hd.
    apply filter_In in Hd as [_ Hd]. apply negb_true_iff in Hd.
    assert (under_excluded (loc ++ [d]) = false) as U'
      by now rewrite under_excluded_app, U, Hd.
    destruct (lookup es d) as [child|] eqn:L;
      [|constructor; [exact U' | constructor]].
    destruct (is_link child); [constructor|].
    constructor; [exact U'|].
    apply lookup_In in L. rewrite Forall_forall in IH.
    now apply (IH _ L).
Qed.

Lemma is_dir_prune (n : node) : is_dir (prune n) = is_dir n.
Proof. now destruct n. Qed.

Lemma nondir_names_prune (es : entries) :
  nondir_names (prune_entries es) = nondir_names es.
Proof.
  unfold nondir_names, prune_entries.
  induction es as [|[nm c] es IH]; [reflexivity|].
  cbn [flat_map filter map fst snd].
  destruct c as [f|es'|es'|es'];
    cbn [is_dir andb negb app filter map fst snd prune];
    [now rewrite IH | ..];
    (destruct (mem nm exclude_folders);
     cbn [app filter map fst snd is_dir negb]; exact IH).
Qed.

Lemma dir_names_prune (es : entries) :
  filter (fun d => negb (mem d exclude_folders))
    (dir_names (prune_entries es))
  = filter (fun d => negb (mem d exclude_folders)) (dir_names es).
Proof.
  unfold dir_names, prune_entries.
  induction es as [|[nm c] es IH]; [reflexivity|].
  cbn [flat_map filter map fst snd].
  destruct c as [f|es'|es'|es'];
    cbn [is_dir andb negb app filter map fst snd prune];
    [exact IH | ..];
    (destruct (mem nm exclude_folders) eqn:X;
     cbn [app filter map fst snd is_dir negb];
     [exact IH | rewrite X; cbn [negb]; now rewrite IH]).
Qed.

Lemma lookup_prune (es : entries) (name : pystr) :
  mem name exclude_folders = false ->
  lookup (prune_entries es) name = option_map prune (lookup es name).
Proof.
  intros X. unfold prune_entries.
  induction es as [|[nm c] es IH]; [reflexivity|].
  cbn [flat_map lookup fst snd].
  destruct (PyStr.eqb nm name) eqn:Q.
  - apply eqb_eq in Q; subst nm. rewrite X, andb_false_r.
    cbn [app lookup]. now rewrite eqb_refl.
  - destruct (is_dir c && mem nm exclude_folders); cbn [app lookup].
    + exact IH.
    + now rewrite Q.
Qed.

Lemma selected_not_excluded (name : pystr) :
  endswith name file_extensions = true -> mem name exclude_folders = false.
Proof.
  intros E. destruct (mem name exclude_folders) eqn:X; [|reflexivity].
  apply excluded_not_selected in X. congruence.
Qed.

Lemma process_file_same_open root dir es es' name st :
  (endswith name file_extensions = true ->
   fs_open es' name = fs_open es name) ->
  process_file root dir es' name st = process_file root dir es name st.
Proof.
  intros H. unfold process_file.
  destruct (endswith name file_extensions); [|reflexivity].
  unfold open_readlines. now rewrite H.
Qed.

Lemma fs_open_prune (es : entries) (name : pystr) :
  endswith name file_extensions = true ->
  fs_open (prune_entries es) name = fs_open es name.
Proof.
  intros E. unfold fs_open.
  rewrite lookup_prune by now apply selected_not_excluded.
  now destruct (lookup es name) as [[f|es'|es'|es']|].
Qed.

(** Two directories that list the same names, open the selected files
    alike and lead to subdirectories the walk treats alike are walked
    alike. *)
Lemma walk_node_similar (T : pystr -> node -> node) (es es' : entries)
    top loc st :
  nondir_names es' = nondir_names es ->
  filter (fun d => negb (mem d exclude_folders)) (dir_names es')
  = filter (fun d => negb (mem d exclude_folders)) (dir_names es) ->
  (forall name, endswith name file_extensions = true ->
                fs_open es' name = fs_open es name) ->
  (forall d, mem d exclude_folders = false ->
             lookup es' d = option_map (T d) (lookup es d)) ->
  (forall d c, is_link (T d c) = is_link c) ->
  (forall d c, lookup es d = Some c ->
     forall top loc st,
       Os.walk_node body top loc (T d c) st
       = Os.walk_node body top loc c st) ->
  Os.walk_node body top loc (Dir es') st
  = Os.walk_node body top loc (Dir es) st.
Proof.
  intros Hn Hd Ho Hl Hk Hw.
  rewrite !walk_node_dir, !bind_run, !body_run, Hn, Hd.
  rewrite (for_each_ext (nondir_names es) (process_file top loc es')
             (process_file top loc es))
    by (intros; apply process_file_same_open, Ho).
  destruct (for_each (nondir_names es) _ st) as [[] st1|e st1];
    [|reflexivity].
  apply for_each_ext. intros d st2 Hin.
  apply filter_In in Hin as [_ Hin]. apply negb_true_iff in Hin.
  rewrite (Hl d Hin).
  destruct (lookup es d) as [c|] eqn:L; [|reflexivity].
  cbn [option_map]. rewrite Hk.
  destruct (is_link c); [reflexivity|].
  rewrite !bind_run. destruct (emit _ st2) as [[] st3|e st3]; [|reflexivity].
  now apply Hw.
Qed.

Lemma walk_node_prune (n : node) :
  forall top loc st,
    Os.walk_node body top loc (prune n) st = Os.walk_node body top loc n st.
Proof.
  induction n as [f|es IH|es|es _] using node_induction; intros top loc st;
    try reflexivity.
  change (prune (Dir es)) with (Dir (prune_entries es)).
  apply (walk_node_similar (fun _ => prune)).
  - apply nondir_names_prune.
  - apply dir_names_prune.
  - apply fs_open_prune.
  - intros d X. now apply lookup_prune.
  - intros _ c. now destruct c.
  - intros d c L. apply lookup_In in L. rewrite Forall_forall in IH.
    apply (IH _ L).
Qed.

Lemma names_blank (es : entries) :
  nondir_names (blank_entries es) = nondir_names es
  /\ dir_names (blank_entries es) = dir_names es.
Proof.
  unfold nondir_names, dir_names, blank_entries.
  induction es as [|[nm c] es [IH1 IH2]]; [split; reflexivity|].
  cbn [map filter fst snd].
  destruct c as [f|es'|es'|es']; cbn [blank_entry blank is_dir negb].
  - destruct (endswith nm file_extensions);
      cbn [is_dir negb map fst]; now rewrite IH1, IH2.
  - cbn [map fst]. now rewrite IH1, IH2.
  - cbn [map fst]. now rewrite IH1, IH2.
  - cbn [map fst]. now rewrite IH1, IH2.
Qed.

Lemma lookup_blank (es : entries) (name : pystr) :
  lookup (blank_entries es) name
  = option_map (blank_entry name) (lookup es name).
Proof.
  unfold blank_entries.
  induction es as [|[nm c] es IH]; [reflexivity|].
  cbn [map lookup fst snd].
  destruct (PyStr.eqb nm name) eqn:Q; [|exact IH].
  apply eqb_eq in Q; now subst nm.
Qed.

Lemma fs_open_blank (es : entries) (name : pystr) :
  endswith name file_extensions = true ->
  fs_open (blank_entries es) name = fs_open es name.
Proof.
  intros E. unfold fs_open. rewrite lookup_blank.
  destruct (lookup es name) as [[f|es'|es'|es']|];
    cbn [option_map blank_entry blank];
    [now rewrite E | reflexivity..].
Qed.

Lemma blank_dir (es : entries) : blank (Dir es) = Dir (blank_entries es).
Proof. reflexivity. Qed.

Lemma walk_node_blank (n : node) :
  forall top loc st,
    Os.walk_node body top loc (blank n) st = Os.walk_node body top loc n st.
Proof.
  induction n as [f|es IH|es|es _] using node_induction; intros top loc st;
    try reflexivity.
  rewrite blank_dir.
  apply (walk_node_similar blank_entry).
  - apply names_blank.
  - now rewrite (proj2 (names_blank es)).
  - apply fs_open_blank.
  - intros d _. apply lookup_blank.
  - intros d c. destruct c; cbn [blank_entry blank is_link];
      try reflexivity.
    now destruct (endswith d file_extensions).
  - intros d c L. apply lookup_In in L. rewrite Forall_forall in IH.
    destruct c as [f|es'|es'|es'];
      [destruct (endswith d file_extensions) eqn:E| | |];
      try (intros; reflexivity).
    + intros; unfold blank_entry; now rewrite E.
    + intros; unfold blank_entry; now rewrite E.
    + apply (IH _ L).
Qed.

Lemma main_same_walk (fs fs' : node) :
  (forall top loc st,
     Os.walk_node body top loc fs' st = Os.walk_node body top loc fs st) ->
  main fs' = main fs.
Proof.
  intros H. unfold main, Os.walk. rewrite !bind_run.
  destruct (emit _ initial) as [[] st0|e st0]; [|reflexivity].
  now rewrite H.
Qed.

Lemma main_observed (fs : node) : main (observed fs) = main fs.
Proof.
  unfold observed.
  rewrite (main_same_walk (prune fs)) by apply walk_node_blank.
  apply main_same_walk, walk_node_prune.
Qed.

(** C2.  The loop hands back to the walk a list of directories without
    [node_modules]; the run scans no directory and opens no file at or
    below a directory of that name, at any depth; and the run is the same
    as on the tree with those directories taken out, so that nothing in
    them is printed or counted. *)
Theorem excluded_directories_are_never_entered (fs : node) :
  (forall root dir es dirs files st,
     match body root dir es dirs files st with
     | Ok dirs' _ =>
         dirs' = filter (fun d => negb (mem d exclude_folders)) dirs
         /\ ~ In (lit "node_modules") dirs'
     | Raise _ _ => True
     end)
  /\ Forall clear_of_excluded (trace (state_of (main fs)))
  /\ main (prune fs) = main fs.
Proof.
  split; [|split].
  - intros root dir es dirs files st. rewrite body_run.
    destruct (for_each files _ st) as [[] st1|e st1]; [|exact I].
    split; [reflexivity|]. intros Hin.
    apply filter_In in Hin as [_ Hin]. discriminate.
  - assert (Forall clear_of_excluded
              (trace (state_of (for_each (plan fs) perform initial))))
      as H.
    { destruct (run_delta (plan fs) initial) as (k & evs & _ & -> & Hev).
      cbn [trace initial app].
      assert (Forall action_outside (plan fs)) as Hout.
      { constructor; [reflexivity|]. now apply schedule_outside. }
      rewrite Forall_forall in Hev, Hout. apply Forall_forall.
      intros e He. destruct (Hev e He) as (a & Ha & Hof).
      specialize (Hout a Ha).
      destruct a as [loc p|r d es nm], e as [loc' p'|d' nm' p'|s t];
        cbn in Hof, Hout |- *; try contradiction; try exact I.
      - destruct Hof as [-> _]. now apply under_excluded_false.
      - destruct Hof as [-> _]. now apply under_excluded_false. }
    rewrite main_run.
    destruct (for_each (plan fs) perform initial) as [[] st|e st];
      cbn [state_of trace] in *; [|exact H].
    apply Forall_app. split; [exact H|]. repeat constructor.
  - apply main_same_walk, walk_node_prune.
Qed.

(** C8.  A run is a function of what the walk can see of the tree: two
    trees with the same listing order, the same selected files and the
    same contents in them (an unchanged tree above all) give the same
    result, the same standard output and the same total. *)
Theorem run_depends_only_on_observed_tree (fs1 fs2 : node) :
  observed fs1 = observed fs2 ->
  main fs1 = main fs2
  /\ stdout (trace (state_of (main fs1)))
     = stdout (trace (state_of (main fs2)))
  /\ total_lines (state_of (main fs1)) = total_lines (state_of (main fs2)).
Proof.
  intros H.
  assert (main fs1 = main fs2) as ->.
  { rewrite <- (main_observed fs1), <- (main_observed fs2). now rewrite H. }
  repeat split.
Qed.

(* ================================================================= *)
(** ** A run, step by step *)

Lemma perform_exact (a : action) (st : state) :
  perform a st
  = match error_of a with
    | Some oe => Raise (OSError oe) (after a st)
    | None => Ok tt (after a st)
    end.
Proof.
  unfold after.
  perform_cases a st; rewrite H; cbn [error_of events_of gain];
    try rewrite E; unfold line_count, decoded_lines;
    try rewrite O; try rewrite D; cbn [option_map];
    rewrite ?Z.add_0_r, ?app_nil_r; try reflexivity.
  now destruct st.
Qed.

Lemma run_exact (acts : list action) :
  forall st,
    for_each acts perform st
    = let reached :=
        mkState (total_lines st + sum_gain (executed acts))
          (trace st ++ flat_map events_of (executed acts)) in
      match first_error acts with
      | Some oe => Raise (OSError oe) reached
      | None => Ok tt reached
      end.
Proof.
  induction acts as [|a acts IH]; intros st; cbn zeta.
  - cbn. rewrite Z.add_0_r, app_nil_r. now destruct st.
  - cbn [for_each executed first_error]. rewrite bind_run, perform_exact.
    destruct (error_of a) as [oe|].
    + unfold after, sum_gain. cbn [map fold_right flat_map].
      now rewrite Z.add_0_r, app_nil_r.
    + rewrite IH. cbn zeta. unfold after, sum_gain.
      cbn [map fold_right flat_map total_lines trace].
      rewrite Z.add_assoc, <- app_assoc. reflexivity.
Qed.

Lemma main_exact (fs : node) :
  main fs
  = let total := sum_gain (executed (plan fs)) in
    let events := flat_map events_of (executed (plan fs)) in
    match first_error (plan fs) with
    | Some oe => Raise (OSError oe) (mkState total events)
    | None =>
        Ok tt (mkState total
                 (events ++ [EPrint SSummary (summary_text total)]))
    end.
Proof.
  rewrite main_run, run_exact. cbn zeta. cbn [initial total_lines trace app].
  rewrite Z.add_0_l. now destruct (first_error (plan fs)).
Qed.

Lemma executed_all (acts : list action) :
  first_error acts = None -> executed acts = acts.
Proof.
  induction acts as [|a acts IH]; [reflexivity|].
  cbn [first_error executed]. destruct (error_of a); [discriminate|].
  intros H. now rewrite IH.
Qed.

Lemma executed_Forall (P : action -> Prop) (acts : list action) :
  Forall P acts -> Forall P (executed acts).
Proof.
  induction 1 as [|a acts Ha _ IH]; [constructor|].
  cbn [executed]. destruct (error_of a); repeat constructor; assumption.
Qed.

(** The selected file of a step, if it has one. *)
Lemma visit_of_cases (a : action) :
  (filter eligible (visit_of a) = [] /\ error_of a = None
   /\ gain a = 0%Z
   /\ forall e, In e (events_of a) -> exists loc p, e = EScandir loc p)
  \/ (exists root dir es name,
        a = AFile root dir es name
        /\ endswith name file_extensions = true
        /\ filter eligible (visit_of a) = [(dir, name, fs_open es name)]).
Proof.
  destruct a as [loc path|root dir es name].
  - left. repeat split. intros e [<-|[]]. eauto.
  - cbn [visit_of filter error_of gain events_of]. unfold eligible.
    cbn [fst snd]. destruct (endswith name file_extensions) eqn:E.
    + right. exists root, dir, es, name. auto.
    + left. repeat split. intros e [].
Qed.

Lemma executed_visits (acts : list action) :
  filter eligible (flat_map visit_of (executed acts))
  = through_failure (filter eligible (flat_map visit_of acts)).
Proof.
  induction acts as [|a acts IH]; [reflexivity|].
  cbn [executed flat_map]. rewrite filter_app.
  destruct (visit_of_cases a)
    as [(V & Er & _) | (root & dir & es & name & -> & E & V)].
  - rewrite Er. cbn [flat_map]. rewrite filter_app, V. exact IH.
  - rewrite V. cbn [error_of app through_failure snd]. rewrite E.
    destruct (fs_open es name) as [content|oe] eqn:O; cbn [unreadable].
    + cbn [flat_map]. rewrite filter_app, V, IH. reflexivity.
    + cbn [flat_map]. rewrite app_nil_r. exact V.
Qed.

Lemma first_error_find (acts : list action) :
  first_error acts
  = match find (fun x => unreadable (snd x))
            (filter eligible (flat_map visit_of acts)) with
    | Some (_, _, Unreadable oe) => Some oe
    | _ => None
    end.
Proof.
  induction acts as [|a acts IH]; [reflexivity|].
  cbn [first_error flat_map]. rewrite filter_app.
  destruct (visit_of_cases a)
    as [(V & Er & _) | (root & dir & es & name & -> & E & V)].
  - rewrite Er, V. exact IH.
  - rewrite V. cbn [error_of app find snd]. rewrite E.
    destruct (fs_open es name) as [content|oe]; cbn [unreadable];
      [exact IH | reflexivity].
Qed.

Lemma sum_gain_counted (acts : list action) :
  sum_gain acts = sum_lines (counted acts).
Proof.
  induction acts as [|a acts IH]; [reflexivity|].
  rewrite sum_lines_counted_cons, <- IH. reflexivity.
Qed.

Lemma through_before_sum (xs : list (location * pystr * file)) :
  sum_lines (filter (fun x => decodes (snd x)) (through_failure xs))
  = sum_lines (filter (fun x => decodes (snd x)) (before_failure xs)).
Proof.
  induction xs as [|[[d n] f] xs IH]; [reflexivity|].
  cbn [through_failure before_failure snd].
  destruct f as [content|oe]; cbn [unreadable filter snd].
  - destruct (decodes (Readable content)); [|exact IH].
    unfold sum_lines in *. cbn [map fold_right]. now rewrite IH.
  - reflexivity.
Qed.

Lemma through_before_text (xs : list (location * pystr * file)) :
  concat (map block_text (through_failure xs))
  = concat (map block_text (before_failure xs)).
Proof.
  induction xs as [|[[d n] f] xs IH]; [reflexivity|].
  cbn [through_failure before_failure snd].
  destruct f as [content|oe]; cbn [unreadable map concat].
  - now rewrite IH.
  - reflexivity.
Qed.

Lemma no_failure (xs : list (location * pystr * file)) :
  existsb (fun x => unreadable (snd x)) xs = false ->
  through_failure xs = xs /\ before_failure xs = xs
  /\ find (fun x => unreadable (snd x)) xs = None.
Proof.
  induction xs as [|x xs IH]; [repeat split|].
  cbn [existsb through_failure before_failure find].
  destruct (unreadable (snd x)); [discriminate|]. cbn [orb].
  intros H. destruct (IH H) as (-> & -> & ->). repeat split.
Qed.

(* ================================================================= *)
(** ** What the steps show *)

Lemma path_of_app (loc : location) (d : pystr) :
  path_of (loc ++ [d]) = PosixPath.join (path_of loc) d.
Proof. unfold path_of. now rewrite fold_left_app. Qed.

Lemma schedule_rooted (n : node) :
  forall loc, Forall rooted (schedule (path_of loc) loc n).
Proof.
  induction n as [f|es IH|es|es HD] using node_induction;
    [| | |exact HD]; intros loc;
    try constructor.
  rewrite schedule_dir. apply Forall_app. split.
  - apply Forall_forall. intros a Ha. apply in_map_iff in Ha.
    destruct Ha as [name [<- _]]. reflexivity.
  - apply Forall_flat_map, Forall_forall. intros d _.
    destruct (lookup es d) as [child|] eqn:L;
      [|constructor; [cbn; now rewrite path_of_app | constructor]].
    destruct (is_link child); [constructor|].
    constructor; [cbn; now rewrite path_of_app|].
    apply lookup_In in L. rewrite Forall_forall in IH.
    rewrite <- path_of_app. apply (IH _ L).
Qed.

Lemma plan_rooted (fs : node) : Forall rooted (plan fs).
Proof.
  unfold plan. constructor; [reflexivity|].
  apply (schedule_rooted fs []).
Qed.

Lemma stdout_cons_other (e : event) (tr : list event) :
  printed e = [] -> stdout (e :: tr) = stdout tr.
Proof. intros H. unfold stdout. cbn [map concat]. now rewrite H. Qed.

Lemma stdout_events (acts : list action) :
  Forall rooted acts ->
  stdout (flat_map events_of acts)
  = concat (map block_text (filter eligible (flat_map visit_of acts))).
Proof.
  induction 1 as [|a acts Ha _ IH]; [reflexivity|].
  cbn [flat_map]. rewrite stdout_app, filter_app, map_app, concat_app, IH.
  f_equal. clear IH.
  destruct a as [loc path|root dir es name]; [reflexivity|].
  cbn in Ha. subst root.
  cbn [events_of visit_of filter]. unfold eligible. cbn [fst snd].
  destruct (endswith name file_extensions); [|reflexivity].
  rewrite stdout_cons_other by reflexivity.
  cbn [map concat]. rewrite app_nil_r.
  unfold block_text, file_path_of. cbn [fst snd].
  destruct (fs_open es name) as [content|oe]; [|reflexivity].
  destruct (Utf8.decode_bytes content) as [text|].
  - change (EPrint SHeader ?h :: ?l) with ([EPrint SHeader h] ++ l).
    rewrite !stdout_app, stdout_lines, concat_readlines.
    unfold stdout. cbn [map printed concat]. now rewrite !app_nil_r.
  - unfold stdout. cbn [map printed concat]. apply app_nil_r.
Qed.

Lemma opens_app (tr1 tr2 : list event) :
  opens (tr1 ++ tr2) = opens tr1 ++ opens tr2.
Proof. apply flat_map_app. Qed.

Lemma opens_prints (tr : list event) :
  (forall e, In e tr -> exists s t, e = EPrint s t) -> opens tr = [].
Proof.
  induction tr as [|e tr IH]; intros H; [reflexivity|].
  destruct (H e (or_introl eq_refl)) as (s & t & ->).
  cbn. apply IH. intros e' He'. apply H. now right.
Qed.

Lemma opens_events (acts : list action) :
  opens (flat_map events_of acts)
  = map (fun x => fst x) (filter eligible (flat_map visit_of acts)).
Proof.
  induction acts as [|a acts IH]; [reflexivity|].
  cbn [flat_map]. rewrite opens_app, filter_app, map_app, IH.
  f_equal. clear IH.
  destruct a as [loc path|root dir es name]; [reflexivity|].
  cbn [events_of visit_of filter]. unfold eligible. cbn [fst snd].
  destruct (endswith name file_extensions); [|reflexivity].
  cbn [map fst]. change (EOpen ?d ?n ?p :: ?l) with ([EOpen d n p] ++ l).
  rewrite opens_app. cbn [opens flat_map app]. f_equal.
  apply opens_prints. intros e He.
  destruct (fs_open es name) as [content|oe]; [|destruct He].
  destruct (Utf8.decode_bytes content) as [text|].
  - destruct He as [<-|He]; [eauto|].
    apply in_app_or in He as [He|[<-|[]]]; [|eauto].
    apply in_map_iff in He as (l & <- & _). eauto.
  - destruct He as [<-|[]]. eauto.
Qed.

Lemma lines_printed_app (tr1 tr2 : list event) :
  lines_printed (tr1 ++ tr2) = (lines_printed tr1 + lines_printed tr2)%nat.
Proof. unfold lines_printed. now rewrite filter_app, length_app. Qed.

Lemma lines_printed_lines (ls : list pystr) :
  lines_printed (map (EPrint SLine) ls) = length ls.
Proof.
  unfold lines_printed. induction ls as [|l ls IH]; [reflexivity|].
  cbn. now rewrite IH.
Qed.

Lemma lines_events (acts : list action) :
  Z.of_nat (lines_printed (flat_map events_of acts)) = sum_gain acts.
Proof.
  induction acts as [|a acts IH]; [reflexivity|].
  cbn [flat_map]. rewrite lines_printed_app, Nat2Z.inj_add, IH.
  unfold sum_gain. cbn [map fold_right]. f_equal. clear IH.
  destruct a as [loc path|root dir es name]; [reflexivity|].
  cbn [events_of gain]. unfold line_count, decoded_lines.
  destruct (endswith name file_extensions); [|reflexivity].
  destruct (fs_open es name) as [content|oe]; [|reflexivity].
  destruct (Utf8.decode_bytes content) as [text|]; [|reflexivity].
  cbn [option_map].
  change (EOpen ?d ?n ?p :: EPrint SHeader ?h :: ?l)
    with ([EOpen d n p; EPrint SHeader h] ++ l).
  rewrite !lines_printed_app, lines_printed_lines. cbn. lia.
Qed.

Lemma scans_app (tr1 tr2 : list event) :
  scans (tr1 ++ tr2) = scans tr1 ++ scans tr2.
Proof. apply flat_map_app. Qed.

Lemma scans_events (acts : list action) :
  scans (flat_map events_of acts) = flat_map scan_of acts.
Proof.
  induction acts as [|a acts IH]; [reflexivity|].
  cbn [flat_map]. rewrite scans_app, IH. f_equal. clear IH.
  destruct a as [loc path|root dir es name]; [reflexivity|].
  cbn [events_of scan_of].
  destruct (endswith name file_extensions); [|reflexivity].
  destruct (fs_open es name) as [content|oe]; [|reflexivity].
  destruct (Utf8.decode_bytes content) as [text|]; [|reflexivity].
  cbn [scans flat_map app]. rewrite flat_map_app. cbn [flat_map app].
  rewrite app_nil_r. induction (TextIO.readlines text) as [|l ls IHl];
    [reflexivity | exact IHl].
Qed.

Lemma sub_dirs_under (n : node) :
  forall loc, under_excluded loc = true ->
    filter (fun l => negb (under_excluded l)) (sub_dirs loc n) = [].
Proof.
  induction n as [f|es IH|es|es HD] using node_induction;
    [| | |exact HD]; intros loc U;
    try reflexivity.
  cbn [sub_dirs].
  induction IH as [|[nm c] l Hc _ IHl]; [reflexivity|].
  cbn [flat_map fst snd].
  destruct c as [f|es'|es'|es']; try exact IHl;
    (assert (under_excluded (loc ++ [nm]) = true) as U'
       by (rewrite under_excluded_app, U; reflexivity);
     cbn [app filter]; rewrite U'; cbn [negb snd] in *;
     rewrite filter_app; exact (f_equal2 (@app _) (Hc _ U') IHl)).
Qed.

(** The scans of a walk are the directories it can come to outside the
    excluded ones. *)
Lemma schedule_scans (n : node) :
  forall top loc, wf n = true -> under_excluded loc = false ->
    flat_map scan_of (schedule top loc n)
    = filter (fun l => negb (under_excluded l)) (sub_dirs loc n).
Proof.
  induction n as [f|es IH|es|es HD] using node_induction;
    [| | |exact HD]; intros top loc W U;
    try reflexivity.
  simpl in W. apply andb_true_iff in W as [Wd Wc].
  rewrite forallb_forall in Wc. rewrite Forall_forall in IH.
  rewrite schedule_dir, flat_map_app. cbn [sub_dirs].
  assert (flat_map scan_of (map (AFile top loc es) (nondir_names es)) = [])
    as ->.
  { induction (nondir_names es) as [|x xs IHx]; [reflexivity | exact IHx]. }
  cbn [app]. unfold dir_names.
  assert (forall l : entries, incl l es ->
            flat_map scan_of
              (flat_map
                 (fun dirname =>
                    match lookup es dirname with
                    | Some child =>
                        if is_link child then []
                        else
                          AScan (loc ++ [dirname])
                            (PosixPath.join top dirname)
                          :: schedule (PosixPath.join top dirname)
                               (loc ++ [dirname]) child
                    | None =>
                        [AScan (loc ++ [dirname])
                           (PosixPath.join top dirname)]
                    end)
                 (filter (fun d => negb (mem d exclude_folders))
                    (map fst (filter (fun e => is_dir (snd e)) l))))
            = filter (fun l0 => negb (under_excluded l0))
                (flat_map
                   (fun e => match snd e with
                             | File _ | DirLink _ => []
                             | _ =>
                                 (loc ++ [fst e])
                                 :: sub_dirs (loc ++ [fst e]) (snd e)
                             end) l)) as H.
  { induction l as [|[nm c] l IHl]; intros I; [reflexivity|].
    assert (In (nm, c) es) as Hin by (apply I; left; reflexivity).
    assert (incl l es) as I' by (intros x Hx; apply I; right; assumption).
    specialize (IHl I').
    pose proof (IH _ Hin) as IHc. pose proof (Wc _ Hin) as Wn.
    cbn [snd] in IHc, Wn.
    destruct c as [f|es'|es'|es'];
      cbn [flat_map filter map fst snd is_dir negb app];
      try exact IHl;
      try (rewrite filter_app; cbn [filter];
           rewrite under_excluded_app, U; cbn [orb]);
      (destruct (mem nm exclude_folders) eqn:X;
       cbn [flat_map filter map fst snd negb app scan_of];
       [| rewrite (distinct_lookup es nm _ Wd Hin);
          cbn [is_link flat_map scan_of app] ]);
      try exact IHl.
    - rewrite sub_dirs_under
        by (rewrite under_excluded_app, X; apply orb_true_r).
      exact IHl.
    - rewrite flat_map_app. f_equal. f_equal; [|exact IHl].
      apply IHc; [exact Wn|].
      rewrite under_excluded_app, U, X. reflexivity.
    - rewrite flat_map_app. f_equal. f_equal. exact IHl. }
  apply H, incl_refl.
Qed.

(* ================================================================= *)
(** ** Paths of plain names *)

Lemma plain_spec (name : pystr) :
  plain name = true -> name <> [] /\ ~ In 47%N name.
Proof.
  unfold plain. rewrite andb_true_iff, !negb_true_iff. intros [Hn Hs].
  split.
  - intros ->. discriminate.
  - intros Hin.
    assert (existsb (N.eqb 47) name = true) as C; [|congruence].
    apply existsb_exists. exists 47%N. split; [exact Hin | reflexivity].
Qed.

Lemma plain_not_absolute (name : pystr) :
  plain name = true -> startswith1 name PosixPath.sep = false.
Proof.
  intros P. apply plain_spec in P as [Hn Hs].
  destruct name as [|c r]; [congruence|].
  unfold startswith1. cbn. rewrite andb_true_r.
  apply N.eqb_neq. intros ->. apply Hs. now left.
Qed.

Lemma plain_no_trailing_sep (a d : pystr) :
  plain d = true -> endswith1 (a ++ d) PosixPath.sep = false.
Proof.
  intros P. apply plain_spec in P as [Hn Hs].
  destruct (endswith1 (a ++ d) PosixPath.sep) eqn:E; [|reflexivity].
  exfalso. apply endswith1_suffix in E as [base E].
  destruct (exists_last Hn) as (d' & x & ->).
  rewrite app_assoc in E. apply app_inj_tail in E as [_ ->].
  apply Hs. apply in_or_app. right. now left.
Qed.

Lemma join_onto_root (x : pystr) :
  plain x = true -> PosixPath.join (lit "./") x = lit "./" ++ x.
Proof.
  intros P. unfold PosixPath.join. now rewrite plain_not_absolute.
Qed.

Lemma join_onto_plain (a d x : pystr) :
  plain d = true -> plain x = true ->
  PosixPath.join (a ++ d) x = (a ++ d) ++ PosixPath.sep ++ x.
Proof.
  intros Pd Px. unfold PosixPath.join.
  rewrite plain_not_absolute, plain_no_trailing_sep by assumption.
  destruct (a ++ d) eqn:A; [|reflexivity].
  apply app_eq_nil in A as [_ ->]. discriminate.
Qed.

Lemma join_path_of (loc : location) :
  forallb plain loc = true ->
  forall x, plain x = true ->
    PosixPath.join (path_of loc) x = shown_path loc x.
Proof.
  induction loc as [|d loc IH] using rev_ind; intros P x Px.
  - now apply join_onto_root.
  - rewrite forallb_app in P. apply andb_true_iff in P as [Pl Pd].
    cbn [forallb] in Pd. rewrite andb_true_r in Pd.
    rewrite path_of_app, (IH Pl d Pd). unfold shown_path.
    rewrite map_app, concat_app. cbn [map concat]. rewrite app_nil_r.
    rewrite (app_assoc (lit "./") _ d).
    rewrite (join_onto_plain _ d x Pd Px).
    now rewrite <- !app_assoc.
Qed.

Lemma schedule_plain (n : node) :
  forall top loc, plain_tree n = true -> forallb plain loc = true ->
    Forall plain_action (schedule top loc n).
Proof.
  induction n as [f|es IH|es|es HD] using node_induction;
    [| | |exact HD]; intros top loc T L;
    try constructor.
  cbn [plain_tree] in T. rewrite forallb_forall in T.
  rewrite Forall_forall in IH.
  rewrite schedule_dir. apply Forall_app. split.
  - apply Forall_forall. intros a Ha. apply in_map_iff in Ha.
    destruct Ha as [name [<- Hn]]. cbn. split; [exact L|].
    unfold nondir_names in Hn. apply in_map_iff in Hn.
    destruct Hn as [e [<- He]]. apply filter_In in He as [He _].
    apply T in He. now apply andb_true_iff in He.
  - apply Forall_flat_map, Forall_forall. intros d Hd.
    apply filter_In in Hd as [Hd _]. unfold dir_names in Hd.
    apply in_map_iff in Hd. destruct Hd as [e [<- He]].
    apply filter_In in He as [He _]. apply T in He.
    apply andb_true_iff in He as [Pd _].
    destruct (lookup es (fst e)) as [child|] eqn:Lk;
      [|repeat constructor].
    destruct (is_link child); [constructor|].
    constructor; [exact I|].
    apply lookup_In in Lk. apply (IH _ Lk).
    + apply T in Lk. now apply andb_true_iff in Lk.
    + rewrite forallb_app, L. cbn. now rewrite Pd.
Qed.

(* ================================================================= *)
(** ** Line ends *)

Lemma translate_without_cr (s : pystr) :
  ~ In TextIO.CR s -> TextIO.translate_newlines s = s.
Proof.
  induction s as [|c r IH]; intros H; [reflexivity|].
  cbn [TextIO.translate_newlines].
  destruct (c =? TextIO.CR)%N eqn:Q.
  - apply N.eqb_eq in Q. exfalso. apply H. now left.
  - rewrite IH; [reflexivity|]. intros Hin. apply H. now right.
Qed.

Lemma translate_crlf (s : pystr) :
  ~ In TextIO.CR s -> TextIO.translate_newlines (to_crlf s) = s.
Proof.
  induction s as [|c r IH]; intros H; [reflexivity|].
  assert (~ In TextIO.CR r) as Hr by (intros Hin; apply H; now right).
  unfold to_crlf. cbn [flat_map]. fold (to_crlf r).
  destruct (c =? TextIO.LF)%N eqn:Q.
  - apply N.eqb_eq in Q; subst c.
    cbn [app TextIO.translate_newlines]. cbn. now rewrite IH.
  - cbn [app TextIO.translate_newlines].
    destruct (c =? TextIO.CR)%N eqn:Q'.
    + apply N.eqb_eq in Q'. exfalso. apply H. now left.
    + now rewrite IH.
Qed.

Lemma to_cr_head (s : pystr) :
  match to_cr s with
  | d :: _ => (d =? TextIO.LF)%N = false
  | [] => True
  end.
Proof.
  destruct s as [|c r]; [exact I|]. cbn [to_cr map].
  destruct (c =? TextIO.LF)%N eqn:Q; [reflexivity | exact Q].
Qed.

Lemma translate_cr (s : pystr) :
  ~ In TextIO.CR s -> TextIO.translate_newlines (to_cr s) = s.
Proof.
  induction s as [|c r IH]; intros H; [reflexivity|].
  assert (~ In TextIO.CR r) as Hr by (intros Hin; apply H; now right).
  unfold to_cr. cbn [map]. fold (to_cr r).
  destruct (c =? TextIO.LF)%N eqn:Q.
  - apply N.eqb_eq in Q; subst c. cbn [TextIO.translate_newlines].
    change (TextIO.CR =? TextIO.CR)%N with true. cbv iota.
    pose proof (to_cr_head r) as Hd.
    destruct (to_cr r) as [|d r'] eqn:R.
    + destruct r; [reflexivity | discriminate].
    + rewrite Hd. now rewrite IH.
  - cbn [TextIO.translate_newlines].
    destruct (c =? TextIO.CR)%N eqn:Q'.
    + apply N.eqb_eq in Q'. exfalso. apply H. now left.
    + now rewrite IH.
Qed.

Lemma split_lines_nil (s : pystr) : TextIO.split_lines s = [] -> s = [].
Proof.
  destruct s as [|c r]; [reflexivity|]. cbn [TextIO.split_lines].
  destruct (c =? TextIO.LF)%N; [discriminate|].
  destruct (TextIO.split_lines r); discriminate.
Qed.

Lemma length_split_lines (s : pystr) :
  length (TextIO.split_lines s)
  = (count_occ N.eq_dec s TextIO.LF
     + if unterminated s then 1 else 0)%nat.
Proof.
  induction s as [|c r IH]; [reflexivity|].
  cbn [TextIO.split_lines count_occ].
  assert (unterminated (c :: r)
          = match r with [] => negb (c =? TextIO.LF)%N
                    | _ => unterminated r end) as U.
  { unfold unterminated. now destruct r. }
  rewrite U. destruct (c =? TextIO.LF)%N eqn:Q.
  - apply N.eqb_eq in Q. subst c.
    destruct (N.eq_dec TextIO.LF TextIO.LF) as [_|C]; [|congruence].
    cbn [length]. rewrite IH. destruct r; reflexivity.
  - apply N.eqb_neq in Q.
    destruct (N.eq_dec c TextIO.LF) as [C|_]; [congruence|].
    destruct (TextIO.split_lines r) as [|l ls] eqn:R.
    + apply split_lines_nil in R. subst r. reflexivity.
    + cbn [length] in *. rewrite IH.
      destruct r; [discriminate | reflexivity].
Qed.

(* ================================================================= *)
(** ** Listing order *)

Lemma all_files_dir (loc : location) (es : entries) :
  all_files loc (Dir es)
  = flat_map (fun e => match snd e with
                       | File f => [(loc, fst e, f)]
                       | _ => []
                       end) es
    ++ flat_map (fun e => match snd e with
                          | Dir _ => all_files (loc ++ [fst e]) (snd e)
                          | _ => []
                          end) es.
Proof. reflexivity. Qed.

Lemma reordered_files (n : node) :
  forall n' loc, reordered n n' ->
    Permutation (all_files loc n) (all_files loc n').
Proof.
  induction n as [f|es IH|es|es _] using node_induction; intros n' loc R;
    try (inversion R; subst; apply Permutation_refl).
  inversion R as [| | |es0 es1 es2 F P]; subst.
  transitivity (all_files loc (Dir es1)).
  - rewrite !all_files_dir. clear P R.
    induction F as [|[nm c] [nm' c'] es es1 [E Rc] F IHF].
    + apply Permutation_refl.
    + cbn in E. subst nm'. inversion IH as [|? ? Hc IH']; subst.
      specialize (IHF IH'). cbn [snd] in Hc, Rc.
      cbn [flat_map fst snd].
      destruct c as [f|ces|ces|ces]; inversion Rc; subst; cbn [app];
        try exact IHF.
      * apply perm_skip. exact IHF.
      * eapply Permutation_trans; [apply Permutation_app_swap_app|].
        eapply Permutation_trans; [|apply Permutation_app_swap_app].
        apply Permutation_app; [apply (Hc _ _ Rc) | exact IHF].
  - rewrite !all_files_dir. apply Permutation_app;
      now apply Permutation_flat_map.
Qed.

Lemma reordered_refl (n : node) : reordered n n.
Proof.
  induction n as [f|es IH|es|es _] using node_induction; try constructor.
  apply (reordered_dir es es es); [|apply Permutation_refl].
  induction IH as [|e es He _ IHes]; constructor; auto.
Qed.

(* ================================================================= *)
(** ** Whole runs on a tree *)

Lemma plan_first_error (fs : node) :
  wf fs = true ->
  first_error (plan fs)
  = match find (fun x => unreadable (snd x)) (selected_files fs) with
    | Some (_, _, Unreadable oe) => Some oe
    | _ => None
    end.
Proof. intros W. now rewrite first_error_find, (plan_visits fs W). Qed.

Lemma plan_executed_visits (fs : node) :
  wf fs = true ->
  filter eligible (flat_map visit_of (executed (plan fs)))
  = through_failure (selected_files fs).
Proof. intros W. now rewrite executed_visits, (plan_visits fs W). Qed.

Lemma plan_completes (fs : node) :
  wf fs = true ->
  existsb (fun x => unreadable (snd x)) (selected_files fs) = false ->
  first_error (plan fs) = None /\ executed (plan fs) = plan fs.
Proof.
  intros W H. apply no_failure in H as (_ & _ & F).
  assert (first_error (plan fs) = None) as E
    by now rewrite (plan_first_error fs W), F.
  split; [exact E | now apply executed_all].
Qed.

Lemma find_unreadable (xs : list (location * pystr * file)) :
  match find (fun x => unreadable (snd x)) xs with
  | Some (_, _, Unreadable _) => existsb (fun x => unreadable (snd x)) xs = true
  | Some (_, _, Readable _) => False
  | None => existsb (fun x => unreadable (snd x)) xs = false
  end.
Proof.
  induction xs as [|[[d n] f] xs IH]; [reflexivity|].
  cbn [find existsb snd]. destruct f as [content|oe]; cbn [unreadable orb].
  - exact IH.
  - reflexivity.
Qed.

Lemma main_completes_iff (fs : node) :
  wf fs = true ->
  (exists st, main fs = Ok tt st)
  <-> existsb (fun x => unreadable (snd x)) (selected_files fs) = false.
Proof.
  intros W. rewrite main_exact, (plan_first_error fs W). cbn zeta.
  pose proof (find_unreadable (selected_files fs)) as F.
  destruct (find _ (selected_files fs)) as [[[d n] [content|oe]]|].
  - contradiction.
  - rewrite F. split; [intros [st C]|]; discriminate.
  - split; [intros _; exact F | eauto].
Qed.

Lemma main_total (fs : node) (st : state) :
  wf fs = true -> main fs = Ok tt st ->
  total_lines st = expected_total fs.
Proof.
  intros W R.
  assert (existsb (fun x => unreadable (snd x)) (selected_files fs) = false)
    as H by (apply (main_completes_iff fs W); eauto).
  destruct (plan_completes fs W H) as [E X].
  rewrite main_exact, E, X in R. cbn zeta in R. injection R as <-.
  cbn [total_lines]. rewrite sum_gain_counted. unfold counted.
  now rewrite (plan_visits fs W).
Qed.

Lemma stdout_summary (tr : list event) (n : Z) :
  stdout (tr ++ [EPrint SSummary (summary_text n)])
  = stdout tr ++ summary_text n.
Proof.
  rewrite stdout_app. f_equal. unfold stdout. cbn [map printed concat].
  apply app_nil_r.
Qed.

(** X1.  On a tree with unique names in which every selected file the
    walk comes to opens, the run completes and its whole output is the
    blocks of those files, in the order of the walk (the files of a
    directory in listing order, then its subdirectories), followed by the
    summary line.  Files below a directory that cannot be listed or below
    a symbolic link to a directory get no block, whatever they are. *)
Theorem completed_run_output (fs : node) :
  wf fs = true ->
  existsb (fun x => unreadable (snd x)) (selected_files fs) = false ->
  exists st,
    main fs = Ok tt st
    /\ stdout (trace st)
       = concat (map block_text (selected_files fs))
         ++ lit "Total lines: " ++ str_of_int (expected_total fs) ++ nl.
Proof.
  intros W H. destruct (plan_completes fs W H) as [E X].
  rewrite main_exact, E, X. cbn zeta. eexists. split; [reflexivity|].
  cbn [trace]. rewrite stdout_summary, (stdout_events _ (plan_rooted fs)).
  rewrite (plan_visits fs W), sum_gain_counted. unfold counted.
  rewrite (plan_visits fs W). reflexivity.
Qed.

(** X2.  When some selected file the walk comes to cannot be opened, the
    run ends with the [OSError] of the first such file in the order of the
    walk.  What was printed until then stays printed: the output is the
    blocks of the selected files before that one, without summary, and
    [total_lines] holds the lines counted so far. *)
Theorem aborted_run_output (fs : node) dir name oe :
  wf fs = true ->
  find (fun x => unreadable (snd x)) (selected_files fs)
  = Some (dir, name, Unreadable oe) ->
  exists st,
    main fs = Raise (OSError oe) st
    /\ stdout (trace st)
       = concat (map block_text (before_failure (selected_files fs)))
    /\ total_lines st
       = sum_lines (filter (fun x => decodes (snd x))
                      (before_failure (selected_files fs))).
Proof.
  intros W F.
  rewrite main_exact, (plan_first_error fs W), F. cbn zeta.
  eexists. split; [reflexivity|]. cbn [trace total_lines]. split.
  - rewrite (stdout_events _ (executed_Forall _ _ (plan_rooted fs))).
    rewrite (plan_executed_visits fs W). apply through_before_text.
  - rewrite sum_gain_counted. unfold counted.
    rewrite (plan_executed_visits fs W). apply through_before_sum.
Qed.

(** X3.  The files a run opens are the selected files the walk comes to
    (those under no excluded directory, no directory that cannot be listed
    and no symbolic link to a directory), each once and in the order of
    the walk, up to and including the first that cannot be opened; a run
    that completes has opened every one of them and no other file. *)
Theorem opened_files_are_the_selected_ones (fs : node) :
  wf fs = true ->
  opens (trace (state_of (main fs)))
  = map (fun x => fst x) (through_failure (selected_files fs))
  /\ (existsb (fun x => unreadable (snd x)) (selected_files fs) = false ->
      opens (trace (state_of (main fs)))
      = map (fun x => fst x) (selected_files fs)).
Proof.
  intros W.
  assert (opens (trace (state_of (main fs)))
          = map (fun x => fst x) (through_failure (selected_files fs)))
    as O.
  { rewrite main_exact. cbn zeta.
    destruct (first_error (plan fs)); cbn [state_of trace];
      rewrite ?opens_app, opens_events, (plan_executed_visits fs W);
      [reflexivity | apply app_nil_r]. }
  split; [exact O|]. intros H. rewrite O.
  apply no_failure in H as (-> & _). reflexivity.
Qed.

(** X4.  A run that completes has called [scandir] on the root and on
    every directory the walk can come to that has no [node_modules] on its
    way down, itself included, each once and top-down: a directory that
    cannot be listed is tried and nothing below it is, and a symbolic link
    to a directory is not tried at all. *)
Theorem scanned_directories (fs : node) :
  wf fs = true ->
  existsb (fun x => unreadable (snd x)) (selected_files fs) = false ->
  scans (trace (state_of (main fs)))
  = [] :: filter (fun loc => negb (existsb (fun d => mem d exclude_folders) loc))
            (sub_dirs [] fs).
Proof.
  intros W H. destruct (plan_completes fs W H) as [E X].
  rewrite main_exact, E, X. cbn zeta. cbn [state_of trace].
  rewrite scans_app, scans_events. unfold plan.
  cbn [flat_map scan_of scans app]. rewrite app_nil_r. f_equal.
  apply (schedule_scans fs directory_path [] W). reflexivity.
Qed.

(** X5.  When a run completes, the total it reports is the number of
    file lines it has printed. *)
Theorem total_counts_printed_lines (fs : node) (st : state) :
  main fs = Ok tt st ->
  total_lines st = Z.of_nat (lines_printed (trace st)).
Proof.
  rewrite main_exact. cbn zeta. generalize (plan fs) as acts. intros acts.
  destruct (first_error acts); [discriminate|].
  intros [= <-]. unfold trace, total_lines.
  rewrite lines_printed_app, Nat2Z.inj_add, lines_events. cbn. lia.
Qed.

Lemma all_files_plain (n : node) :
  forall loc, plain_tree n = true -> forallb plain loc = true ->
    Forall (fun x => forallb plain (fst (fst x)) = true
                     /\ plain (snd (fst x)) = true) (all_files loc n).
Proof.
  induction n as [f|es IH|es|es HD] using node_induction;
    [| | |exact HD]; intros loc T L;
    try constructor.
  cbn [plain_tree] in T. rewrite forallb_forall in T.
  rewrite Forall_forall in IH. rewrite all_files_dir.
  apply Forall_app. split; apply Forall_flat_map, Forall_forall;
    intros [nm c] He; pose proof (T _ He) as P;
    apply andb_true_iff in P as [Pn Pc]; cbn [fst snd] in *.
  - destruct c; repeat constructor; assumption.
  - destruct c as [f|es'|es'|es']; try constructor.
    apply (IH _ He); [exact Pc|].
    rewrite forallb_app, L. cbn. now rewrite Pn.
Qed.

(** X6.  When the names in the tree are not empty and hold no slash, the
    path of every file the run opens, which is also the path in its
    header or error line, is ['./'], the directories above the file each
    followed by a slash, and the file's name. *)
Theorem file_paths_are_relative_to_the_root (fs : node) :
  plain_tree fs = true ->
  Forall (fun e => match e with
                   | EOpen dir name path =>
                       path = lit "./"
                              ++ concat (map (fun d => d ++ lit "/") dir)
                              ++ name
                   | _ => True
                   end) (trace (state_of (main fs)))
  /\ Forall (fun x => file_path_of x
                      = lit "./"
                        ++ concat (map (fun d => d ++ lit "/") (fst (fst x)))
                        ++ snd (fst x)) (all_files [] fs).
Proof.
  intros T. split.
  - assert (Forall (fun e => match e with
                             | EOpen dir name path =>
                                 path = shown_path dir name
                             | _ => True
                             end)
              (trace (state_of (for_each (plan fs) perform initial))))
      as H.
    { destruct (run_delta (plan fs) initial) as (k & evs & _ & -> & Hev).
      cbn [trace initial app].
      pose proof (plan_rooted fs) as Hr.
      assert (Forall plain_action (plan fs)) as Hp.
      { constructor; [exact I|]. now apply schedule_plain. }
      rewrite Forall_forall in Hev, Hr, Hp. apply Forall_forall.
      intros e He. destruct (Hev e He) as (a & Ha & Hof).
      specialize (Hr a Ha). specialize (Hp a Ha).
      destruct e as [loc' p'|d' nm' p'|s t]; try exact I.
      destruct a as [loc p|r d es nm]; cbn in Hof, Hr, Hp;
        [contradiction|].
      destruct Hof as (-> & -> & ->). subst r.
      now apply join_path_of. }
    rewrite main_run.
    destruct (for_each (plan fs) perform initial) as [[] st|e st];
      cbn [state_of trace] in *; [|exact H].
    apply Forall_app. split; [exact H|]. repeat constructor.
  - eapply Forall_impl; [|apply (all_files_plain fs []); auto].
    intros [[d n] f] [Pd Pn]. cbn [fst snd] in *.
    unfold file_path_of. cbn [fst snd]. now apply join_path_of.
Qed.

(** X7.  Listing the entries of directories in another order changes
    neither whether the run completes nor the total it reports. *)
Theorem total_is_independent_of_listing_order (fs1 fs2 : node) :
  reordered fs1 fs2 -> wf fs1 = true -> wf fs2 = true ->
  ((exists st1, main fs1 = Ok tt st1) <-> (exists st2, main fs2 = Ok tt st2))
  /\ (forall st1 st2,
        main fs1 = Ok tt st1 -> main fs2 = Ok tt st2 ->
        total_lines st1 = total_lines st2).
Proof.
  intros R W1 W2.
  assert (Permutation (selected_files fs1) (selected_files fs2)) as P.
  { apply filter_permutation. now apply reordered_files. }
  split.
  - rewrite (main_completes_iff fs1 W1), (main_completes_iff fs2 W2).
    now rewrite (existsb_permutation _ _ _ P).
  - intros st1 st2 R1 R2.
    rewrite (main_total fs1 st1 W1 R1), (main_total fs2 st2 W2 R2).
    unfold expected_total.
    apply sum_lines_permutation, filter_permutation, P.
Qed.

(** X8.  A text without carriage returns reads as the same lines whether
    its lines end in LF, in CR LF or in CR: the three spellings of a file
    are printed and counted alike. *)
Theorem line_ends_read_alike (s : pystr) :
  ~ In TextIO.CR s ->
  TextIO.readlines (to_crlf s) = TextIO.readlines s
  /\ TextIO.readlines (to_cr s) = TextIO.readlines s.
Proof.
  intros H. unfold TextIO.readlines.
  now rewrite translate_crlf, translate_cr, translate_without_cr.
Qed.

(** X9.  The number of lines read from a text is the number of its line
    ends, plus one when its last line has none: a final line without a
    line end is counted, and a final line end adds no empty line. *)
Theorem line_count_of_text (text : pystr) :
  let t := TextIO.translate_newlines text in
  length (TextIO.readlines text)
  = (count_occ N.eq_dec t TextIO.LF + if unterminated t then 1 else 0)%nat.
Proof. apply length_split_lines. Qed.

(** X10.  An eligible file of ASCII bytes always decodes: it is never
    answered with an error line, its characters are printed as they are,
    line ends apart, and its lines are counted. *)
Theorem ascii_file_is_echoed root dir es name content st :
  endswith name file_extensions = true ->
  fs_open es name = Readable content ->
  Forall (fun b => (Byte.to_N b < 128)%N) content ->
  let text := map Byte.to_N content in
  exists st',
    process_file root dir es name st = Ok tt st'
    /\ stdout (trace st')
       = stdout (trace st)
         ++ header_text (PosixPath.join root name)
         ++ TextIO.translate_newlines text ++ separator_text
    /\ total_lines st'
       = (total_lines st + Z.of_nat (length (TextIO.readlines text)))%Z.
Proof.
  intros E O A text.
  assert (Utf8.decode_bytes content = Some text) as D.
  { unfold Utf8.decode_bytes. apply decode_ascii.
    apply Forall_forall. intros b Hb. apply in_map_iff in Hb.
    destruct Hb as [x [<- Hx]]. rewrite Forall_forall in A. now apply A. }
  rewrite (process_file_decoded root dir es name content text st E O D).
  eexists. split; [reflexivity|]. cbn [total_lines trace].
  split; [|reflexivity].
  rewrite !stdout_app, stdout_lines, concat_readlines.
  unfold stdout. cbn [map printed concat app]. now rewrite !app_nil_r.
Qed.

(** X11.  A [UnicodeDecodeError] never leaves the loop: whatever the
    tree holds, the run does not end with one. *)
Theorem decode_error_never_ends_a_run (fs : node) :
  match main fs with
  | Raise (UnicodeDecodeError _) _ => False
  | _ => True
  end.
Proof.
  rewrite main_exact. cbn zeta.
  now destruct (first_error (plan fs)).
Qed.

(** X12.  The lines read from a text are a partition of it after line-end
    translation: printed one after the other they give the text back, no
    line is empty, and every line but the last ends in a line feed. *)
Theorem lines_partition_the_text (text : pystr) :
  concat (TextIO.readlines text) = TextIO.translate_newlines text
  /\ Forall (fun l => l <> []) (TextIO.readlines text)
  /\ (forall ls l, TextIO.readlines text = ls ++ [l] ->
        Forall (fun x => exists body, x = body ++ [TextIO.LF]) ls).
Proof.
  split; [apply concat_readlines|]. split.
  - apply split_lines_nonempty.
  - apply split_lines_ends.
Qed.

End Total.

(* ================================================================= *)
(** ** The properties on the sample trees *)

(** The whole output of a run on the sample tree. *)
Example sample_output :
  stdout (trace (state_of (main Sample.describe Sample.tree)))
  = lit "Contents of ./a.py:
import os
print(os.getcwd())

--------------------------------------------------

Contents of ./b.js:
let a = 1;
let b = 2;
let c = 3;
--------------------------------------------------

Error reading ./bad.css: 'utf-8' codec can't decode byte 0xff in position 0: invalid start byte
Contents of ./src/empty.html:

--------------------------------------------------

Total lines: 5
".
Proof. reflexivity. Qed.

Lemma total_is_sum_over_selected_files_sample :
  wf Sample.tree = true
  /\ exists st,
       main Sample.describe Sample.tree = Ok tt st
       /\ total_lines st = 5%Z.
Proof.
  split; [reflexivity|].
  destruct (total_is_sum_over_selected_files Sample.describe Sample.tree
              eq_refl) as (Hsum & Hdone & _).
  destruct (Hdone eq_refl) as [st R].
  exists st. split; [exact R|].
  rewrite (proj1 (Hsum st R)). reflexivity.
Defined.

Lemma excluded_directories_sample :
  (forall path,
     ~ In (EScandir [lit "node_modules"; lit "sub"] path)
         (trace (state_of (main Sample.describe Sample.tree))))
  /\ (forall path,
        ~ In (EOpen [lit "node_modules"; lit "sub"; lit "deep"]
                (lit "app.js") path)
            (trace (state_of (main Sample.describe Sample.tree)))).
Proof.
  pose proof (proj1 (proj2 (excluded_directories_are_never_entered
                              Sample.describe Sample.tree))) as H.
  rewrite Forall_forall in H.
  split; intros path Hin; apply H in Hin; apply Hin; left; reflexivity.
Defined.

Lemma decode_failure_is_logged_and_skipped_sample :
  endswith (lit "bad.css") file_extensions = true
  /\ fs_open Sample.root_entries (lit "bad.css") = Readable Sample.bad_css
  /\ Utf8.decode_bytes Sample.bad_css = None
  /\ process_file Sample.describe (lit "./") [] Sample.root_entries
       (lit "bad.css") initial
     = Ok tt
         (mkState 0
            [EOpen [] (lit "bad.css") (lit "./bad.css");
             EPrint SError
               (lit "Error reading ./bad.css: "
                ++ Sample.describe Sample.bad_css ++ nl)]).
Proof.
  refine (conj eq_refl (conj eq_refl (conj eq_refl _))).
  exact (proj1 (decode_failure_is_logged_and_skipped Sample.describe
                  (lit "./") [] Sample.root_entries [] [] (lit "bad.css")
                  [] Sample.bad_css initial eq_refl eq_refl eq_refl)).
Defined.

Lemma other_errors_abort_the_run_sample :
  wf Sample.broken_tree = true
  /\ existsb (fun x => unreadable (snd x))
       (selected_files Sample.broken_tree) = true
  /\ exists oe st dir name path,
       main Sample.describe Sample.broken_tree = Raise (OSError oe) st
       /\ In (dir, name, Unreadable oe) (selected_files Sample.broken_tree)
       /\ (exists before, trace st = before ++ [EOpen dir name path])
       /\ (forall text, ~ In (EPrint SSummary text) (trace st)).
Proof.
  split; [reflexivity|]. split; [reflexivity|].
  apply other_errors_abort_the_run; reflexivity.
Defined.

Lemma decoded_file_is_printed_and_counted_sample :
  endswith (lit "b.js") file_extensions = true
  /\ fs_open Sample.root_entries (lit "b.js") = Readable Sample.b_js
  /\ Utf8.decode_bytes Sample.b_js = Some Sample.b_js_text
  /\ exists st',
       process_file Sample.describe (lit "./") [] Sample.root_entries
         (lit "b.js") initial = Ok tt st'
       /\ total_lines st' = 3%Z.
Proof.
  refine (conj eq_refl (conj eq_refl (conj eq_refl _))).
  destruct (decoded_file_is_printed_and_counted Sample.describe
              (lit "./") [] Sample.root_entries (lit "b.js")
              Sample.b_js Sample.b_js_text initial
              eq_refl eq_refl eq_refl) as (st' & R & T & _).
  exists st'. split; [exact R | exact T].
Defined.

Lemma run_depends_only_on_observed_tree_sample :
  observed Sample.tree = observed Sample.other_tree
  /\ main Sample.describe Sample.tree
     = main Sample.describe Sample.other_tree.
Proof.
  split; [reflexivity|].
  apply (run_depends_only_on_observed_tree Sample.describe
           Sample.tree Sample.other_tree eq_refl).
Defined.

Lemma empty_file_prints_header_and_separator_sample :
  endswith (lit "empty.html") file_extensions = true
  /\ fs_open Sample.src_entries (lit "empty.html") = Readable []
  /\ process_file Sample.describe (lit "./src") [lit "src"]
       Sample.src_entries (lit "empty.html") initial
     = Ok tt
         (mkState 0
            [EOpen [lit "src"] (lit "empty.html") (lit "./src/empty.html");
             EPrint SHeader (lit "Contents of ./src/empty.html:" ++ nl);
             EPrint SSeparator
               (nl ++ lit "--------------------------------------------------"
                ++ nl ++ nl)]).
Proof.
  refine (conj eq_refl (conj eq_refl _)).
  exact (proj1 (empty_file_prints_header_and_separator Sample.describe
                  (lit "./src") [lit "src"] Sample.src_entries
                  (lit "empty.html") initial eq_refl eq_refl)).
Defined.

Lemma decode_failure_prints_only_the_error_line_sample :
  endswith (lit "bad.css") file_extensions = true
  /\ fs_open Sample.root_entries (lit "bad.css") = Readable Sample.bad_css
  /\ Utf8.decode_bytes Sample.bad_css = None
  /\ exists added,
       trace (state_of (process_file Sample.describe (lit "./") []
                          Sample.root_entries (lit "bad.css") initial))
       = added
       /\ stdout added
          = lit "Error reading ./bad.css: "
            ++ Sample.describe Sample.bad_css ++ nl.
Proof.
  refine (conj eq_refl (conj eq_refl (conj eq_refl _))).
  destruct (decode_failure_prints_only_the_error_line Sample.describe
              (lit "./") [] Sample.root_entries (lit "bad.css")
              Sample.bad_css initial eq_refl eq_refl eq_refl)
    as (added & Htr & _ & Hout & _).
  exists added. split; [exact Htr | exact Hout].
Defined.

Lemma completed_run_output_sample :
  wf Sample.skipping_tree = true
  /\ existsb (fun x => unreadable (snd x))
       (selected_files Sample.skipping_tree) = false
  /\ exists st,
       main Sample.describe Sample.skipping_tree = Ok tt st
       /\ stdout (trace st)
          = concat (map (block_text Sample.describe)
                      (selected_files Sample.skipping_tree))
            ++ lit "Total lines: "
            ++ str_of_int (expected_total Sample.skipping_tree) ++ nl.
Proof.
  refine (conj eq_refl (conj eq_refl _)).
  exact (completed_run_output Sample.describe Sample.skipping_tree
           eq_refl eq_refl).
Defined.

Lemma aborted_run_output_sample :
  wf Sample.broken_tree = true
  /\ find (fun x => unreadable (snd x)) (selected_files Sample.broken_tree)
     = Some ([], lit "gone.js", Unreadable FileNotFoundError)
  /\ exists st,
       main Sample.describe Sample.broken_tree
       = Raise (OSError FileNotFoundError) st
       /\ stdout (trace st)
          = concat (map (block_text Sample.describe)
                      (before_failure (selected_files Sample.broken_tree)))
       /\ total_lines st
          = sum_lines (filter (fun x => decodes (snd x))
                         (before_failure
                            (selected_files Sample.broken_tree))).
Proof.
  refine (conj eq_refl (conj eq_refl _)).
  exact (aborted_run_output Sample.describe Sample.broken_tree
           [] (lit "gone.js") FileNotFoundError eq_refl eq_refl).
Defined.

Lemma opened_files_are_the_selected_ones_sample :
  wf Sample.skipping_tree = true
  /\ opens (trace (state_of (main Sample.describe Sample.skipping_tree)))
     = [([], lit "a.py"); ([lit "src"], lit "empty.html")].
Proof.
  refine (conj eq_refl _).
  exact (proj1 (opened_files_are_the_selected_ones Sample.describe
                  Sample.skipping_tree eq_refl)).
Defined.

Lemma scanned_directories_sample :
  wf Sample.skipping_tree = true
  /\ existsb (fun x => unreadable (snd x))
       (selected_files Sample.skipping_tree) = false
  /\ scans (trace (state_of (main Sample.describe Sample.skipping_tree)))
     = [[]; [lit "locked"]; [lit "src"]].
Proof.
  refine (conj eq_refl (conj eq_refl _)).
  exact (scanned_directories Sample.describe Sample.skipping_tree
           eq_refl eq_refl).
Defined.

Lemma total_counts_printed_lines_sample :
  main Sample.describe Sample.tree
  = Ok tt (state_of (main Sample.describe Sample.tree))
  /\ total_lines (state_of (main Sample.describe Sample.tree))
     = Z.of_nat
         (lines_printed
            (trace (state_of (main Sample.describe Sample.tree)))).
Proof.
  assert (main Sample.describe Sample.tree
          = Ok tt (state_of (main Sample.describe Sample.tree))) as R
    by (vm_compute; reflexivity).
  split; [exact R|].
  exact (total_counts_printed_lines Sample.describe Sample.tree _ R).
Defined.

Lemma file_paths_are_relative_to_the_root_sample :
  plain_tree Sample.tree = true
  /\ Forall (fun x => file_path_of x
                      = lit "./"
                        ++ concat (map (fun d => d ++ lit "/")
                                     (fst (fst x)))
                        ++ snd (fst x)) (all_files [] Sample.tree).
Proof.
  refine (conj eq_refl _).
  exact (proj2 (file_paths_are_relative_to_the_root Sample.describe
                  Sample.tree eq_refl)).
Defined.

Lemma total_is_independent_of_listing_order_sample :
  reordered Sample.tree Sample.reversed_tree
  /\ wf Sample.tree = true
  /\ wf Sample.reversed_tree = true
  /\ opens (trace (state_of (main Sample.describe Sample.tree)))
     = [([], lit "a.py"); ([], lit "b.js"); ([], lit "bad.css");
        ([lit "src"], lit "empty.html")]
  /\ opens (trace (state_of (main Sample.describe Sample.reversed_tree)))
     = [([], lit "bad.css"); ([], lit "b.js"); ([], lit "a.py");
        ([lit "src"], lit "empty.html")]
  /\ forall st1 st2,
       main Sample.describe Sample.tree = Ok tt st1 ->
       main Sample.describe Sample.reversed_tree = Ok tt st2 ->
       total_lines st1 = total_lines st2.
Proof.
  assert (reordered Sample.tree Sample.reversed_tree) as R.
  { apply (reordered_dir Sample.root_entries Sample.root_entries).
    - assert (forall es : entries,
                Forall2 (fun e e' => fst e = fst e'
                                     /\ reordered (snd e) (snd e')) es es)
        as F.
      { induction es as [|e es IH]; constructor;
          [split; [reflexivity | apply reordered_refl] | exact IH]. }
      apply F.
    - apply Permutation_rev. }
  refine (conj R (conj eq_refl (conj eq_refl
            (conj eq_refl (conj eq_refl _))))).
  exact (proj2 (total_is_independent_of_listing_order Sample.describe
                  Sample.tree Sample.reversed_tree R eq_refl eq_refl)).
Defined.

Lemma line_ends_read_alike_sample :
  ~ In TextIO.CR Sample.three_lines
  /\ TextIO.readlines (to_crlf Sample.three_lines)
     = [lit "one" ++ nl; lit "two" ++ nl; lit "three"]
  /\ TextIO.readlines (to_cr Sample.three_lines)
     = TextIO.readlines Sample.three_lines.
Proof.
  assert (~ In TextIO.CR Sample.three_lines) as H.
  { intros H. cbv in H.
    repeat (destruct H as [H|H]; [discriminate H|]). exact H. }
  refine (conj H _).
  destruct (line_ends_read_alike Sample.three_lines H) as [E1 E2].
  split; [rewrite E1; reflexivity | exact E2].
Defined.

Lemma ascii_file_is_echoed_sample :
  endswith (lit "a.py") file_extensions = true
  /\ fs_open Sample.root_entries (lit "a.py") = Readable Sample.a_py
  /\ Forall (fun b => (Byte.to_N b < 128)%N) Sample.a_py
  /\ exists st',
       process_file Sample.describe (lit "./") [] Sample.root_entries
         (lit "a.py") initial = Ok tt st'
       /\ total_lines st' = 2%Z.
Proof.
  assert (Forall (fun b => (Byte.to_N b < 128)%N) Sample.a_py) as A.
  { repeat (constructor; [reflexivity|]). constructor. }
  refine (conj eq_refl (conj eq_refl (conj A _))).
  destruct (ascii_file_is_echoed Sample.describe (lit "./") []
              Sample.root_entries (lit "a.py") Sample.a_py initial
              eq_refl eq_refl A) as (st' & R & _ & T).
  exists st'. split; [exact R | exact T].
Defined.

(** C1 as first worded counts every file of the tree: the file below a
    directory that cannot be listed is counted there, and not by the
    run. *)
Lemma total_misses_files_the_walk_cannot_reach :
  wf Sample.locked_tree = true
  /\ exists st,
       main Sample.describe Sample.locked_tree = Ok tt st
       /\ total_lines st = 2%Z
       /\ claimed_total Sample.locked_tree = 3%Z
       /\ total_lines st <> claimed_total Sample.locked_tree.
Proof.
  split; [reflexivity|]. eexists. split; [reflexivity|].
  split; [reflexivity|]. split; [reflexivity|]. discriminate.
Qed.
